(** * SafeWord / textocerto-api: the profanity detector of [src/index.ts]

    A shallow embedding of the request pipeline of [src/index.ts]
    ([TextProcessor] and [ProfanityDetectorAPI]) and the properties of it that
    the specification states.

    Conventions of the embedding:
    - a JavaScript string is the list of its UTF-16 code units ([jsstring]);
    - a JavaScript number is an IEEE 754 binary64 value ([float], the kernel's
      primitive floats), compared with [PrimFloat.ltb];
    - [undefined] is [None];
    - a [Map] is the list of its entries in insertion order, which is the order
      [Map.prototype.forEach] visits them in;
    - the vector index is a function from the query text to the outcome of the
      promise [index.query] returns: rejected, or resolved with an array;
    - the order in which the pending queries of one [Promise.all] complete is
      a parameter of the run (a list of choices). *)

From Stdlib Require Import List Bool Arith NArith ZArith Lia String Ascii.
From Stdlib Require Import Floats Permutation.
Import ListNotations.

Set Warnings "-inexact-float".

(** ** JavaScript numbers: the order of binary64 *)

Module Num.

Local Open Scope float_scope.

(** [x > y] in JavaScript. *)
Definition gt (x y : float) : bool := PrimFloat.ltb y x.

(** [x <= y]. *)
Definition le (x y : float) : bool := PrimFloat.leb x y.

(** [ToBoolean] of a number: false for [+0], [-0] and [NaN]. *)
Definition truthy (x : float) : bool :=
  negb (PrimFloat.eqb x 0 || PrimFloat.is_nan x).

Definition isNaN (x : float) : bool := PrimFloat.is_nan x.

End Num.

(** ** JavaScript strings: sequences of UTF-16 code units *)

Module Js.

Definition codeunit := N.
Definition jsstring := list codeunit.

(** A string literal of the source (ASCII). *)
Definition lit (s : string) : jsstring :=
  List.map N_of_ascii (list_ascii_of_string s).
Arguments lit s%_string.

Definition eq_dec (a b : jsstring) : {a = b} + {a <> b} :=
  list_eq_dec N.eq_dec a b.

(** [a === b] on strings. *)
Definition eqb (a b : jsstring) : bool := if eq_dec a b then true else false.

Definition between (lo hi c : N) : bool := (lo <=? c)%N && (c <=? hi)%N.

(** The class [\s] of a regular expression, which is also what [trim]
    removes: WhiteSpace and LineTerminator of ECMAScript. *)
Definition isSpace (c : codeunit) : bool :=
  between 9 13 c          (* TAB, LF, VT, FF, CR *)
  || (c =? 32)%N          (* SPACE *)
  || (c =? 160)%N         (* NO-BREAK SPACE *)
  || (c =? 5760)%N        (* U+1680 *)
  || between 8192 8202 c  (* U+2000 .. U+200A *)
  || (c =? 8232)%N || (c =? 8233)%N   (* U+2028, U+2029 *)
  || (c =? 8239)%N || (c =? 8287)%N   (* U+202F, U+205F *)
  || (c =? 12288)%N       (* U+3000 *)
  || (c =? 65279)%N.      (* U+FEFF *)

Definition isUpper (c : codeunit) : bool := between 65 90 c.
Definition isLower (c : codeunit) : bool := between 97 122 c.
Definition isDigit (c : codeunit) : bool := between 48 57 c.

(** The class [\w]: [A-Za-z0-9_]. *)
Definition isWordChar (c : codeunit) : bool :=
  isUpper c || isLower c || isDigit c || (c =? 95)%N.

(** [s.length] *)
Definition length (s : jsstring) : nat := List.length s.

Fixpoint startsWith (s p : jsstring) : bool :=
  match p, s with
  | [], _ => true
  | a :: p', b :: s' => (a =? b)%N && startsWith s' p'
  | _ :: _, [] => false
  end.

(** [s.includes(sub)] *)
Fixpoint includes (s sub : jsstring) : bool :=
  startsWith s sub
  || match s with
     | [] => false
     | _ :: r => includes r sub
     end.

Fixpoint dropWhile (p : codeunit -> bool) (s : jsstring) : jsstring :=
  match s with
  | [] => []
  | c :: r => if p c then dropWhile p r else s
  end.

Definition trimStart (s : jsstring) : jsstring := dropWhile isSpace s.
Definition trimEnd (s : jsstring) : jsstring := rev (dropWhile isSpace (rev s)).

(** [s.trim()] *)
Definition trim (s : jsstring) : jsstring := trimEnd (trimStart s).

(** [s.replace(/[^\w\s]/g, '')]: without the [u] flag the expression is
    matched code unit by code unit. *)
Definition removeNonWordNonSpace (s : jsstring) : jsstring :=
  filter (fun c => isWordChar c || isSpace c) s.

(** [s.split(/\s+/)].  [inGap] says that the code unit before was part of
    the separator being matched; [acc] is the piece being read, reversed.
    The empty string gives one empty piece; leading and trailing white space
    give an empty first and last piece. *)
Fixpoint splitAux (inGap : bool) (acc : jsstring) (s : jsstring)
  : list jsstring :=
  match s with
  | [] => [rev acc]
  | c :: r =>
      if isSpace c
      then if inGap then splitAux true [] r
           else rev acc :: splitAux true [] r
      else splitAux false (c :: acc) r
  end.

Definition splitOnSpaces (s : jsstring) : list jsstring := splitAux false [] s.

End Js.

Abbreviation jsstring := Js.jsstring.

(** ** [Map]: entries in insertion order *)

Module JsMap.
Section WithKey.
Context {K V : Type}.
Variable K_eq_dec : forall a b : K, {a = b} + {a <> b}.

Definition t := list (K * V).

(** [new Map()] *)
Definition empty : t := [].

(** [m.set(k, v)]: an existing key keeps its place and takes the new
    value; a new key goes last. *)
Fixpoint set (k : K) (v : V) (m : t) : t :=
  match m with
  | [] => [(k, v)]
  | (k', v') :: r =>
      if K_eq_dec k k' then (k, v) :: r else (k', v') :: set k v r
  end.

(** [m.get(k)] *)
Fixpoint get (k : K) (m : t) : option V :=
  match m with
  | [] => None
  | (k', v') :: r => if K_eq_dec k k' then Some v' else get k r
  end.

Definition keys (m : t) : list K := List.map fst m.

(** [m.forEach((v, k) => ...)] threading the variables the callback
    assigns. *)
Definition forEach {S : Type} (f : S -> V -> K -> S) (m : t) (s : S) : S :=
  fold_left (fun st e => f st (snd e) (fst e)) m s.

End WithKey.
End JsMap.

(** ** The vector index (the similarity oracle) *)

(** A thrown value: an [Error] with its message, or anything else. *)
Inductive Thrown : Type :=
| ErrorObject (message : jsstring)
| OtherValue.

Module Vector.
(** [metadata: {text}] of an entry of the index. *)
Record Metadata : Type := { text : option jsstring }.

(** One element of the array [index.query] resolves with. *)
Record t : Type := { score : option float; metadata : option Metadata }.

(** [vector.metadata?.text] *)
Definition metadataText (v : t) : option jsstring :=
  match metadata v with
  | None => None
  | Some m => text m
  end.
End Vector.

(** What the promise of [index.query({topK: 1, data, includeMetadata})]
    settles to. *)
Inductive QueryOutcome : Type :=
| Rejected (err : Thrown)
| Resolved (vectors : list Vector.t).

Definition Index := jsstring -> QueryOutcome.

(** ** Interfaces of [index.ts] *)

Record RequestBody : Type := { message : jsstring }.

Module FlaggedContent.
Record t : Type := { score : float; context : jsstring }.
End FlaggedContent.

Module FlaggedResult.
Record t : Type := { flag : option jsstring; details : FlaggedContent.t }.
End FlaggedResult.

Module TextAnalysisResult.
Record t : Type :=
  { isImproprio : bool;
    pontuacao : float;
    flag : option jsstring;
    contexto : option jsstring }.
End TextAnalysisResult.

(** ** Configuration *)

Module CONFIG.
Definition CHUNK_SIZE : nat := 25.
Definition CHUNK_OVERLAP : nat := 8.
Definition WORD_THRESHOLD : float := 0.95.
Definition SEMANTIC_THRESHOLD : float := 0.96.
Definition MAX_WORDS : nat := 35.
Definition MAX_CHARS : nat := 1000.
End CONFIG.

Module ALLOWED_WORDS.
Definition GENERAL : list jsstring := [Js.lit "black"; Js.lit "swear"].

Definition CONTEXT_SPECIFIC : list (jsstring * list jsstring) :=
  [ (Js.lit "black",
     [Js.lit "black belt"; Js.lit "black coffee"; Js.lit "black friday"]) ].

(** [ALLOWED_WORDS.GENERAL.has(word)] *)
Definition GENERAL_has (word : jsstring) : bool :=
  existsb (Js.eqb word) GENERAL.

(** [ALLOWED_WORDS.CONTEXT_SPECIFIC.get(word)]; the key may be [undefined]
    at run time, which no entry has. *)
Definition CONTEXT_SPECIFIC_get (word : option jsstring)
  : option (list jsstring) :=
  match word with
  | None => None
  | Some w =>
      match find (fun e => Js.eqb w (fst e)) CONTEXT_SPECIFIC with
      | Some e => Some (snd e)
      | None => None
      end
  end.
End ALLOWED_WORDS.

(** ** [class TextProcessor] *)

Module TextProcessor.

(** [splitIntoWords]: [text.split(/\s+/).filter(word => word.length > 0)] *)
Definition splitIntoWords (text : jsstring) : list jsstring :=
  filter (fun word => 0 <? Js.length word) (Js.splitOnSpaces text).

(** [isAllowedInContext]; [word] is [vector.metadata?.text], possibly
    [undefined]. *)
Definition isAllowedInContext (word : option jsstring) (context : jsstring)
  : bool :=
  match ALLOWED_WORDS.CONTEXT_SPECIFIC_get word with
  | None => false
  | Some contextSpecific =>
      existsb (fun allowedContext => Js.includes context allowedContext)
              contextSpecific
  end.

Section Runtime.
(** [String.prototype.toLowerCase], whose Unicode case tables are the
    engine's. *)
Variable toLowerCase : jsstring -> jsstring.

(** The [pageContent] of the documents that
    [RecursiveCharacterTextSplitter({chunkSize: 25, separators: [' '],
    chunkOverlap: 8}).createDocuments([text])] of langchain resolves with. *)
Variable splitter : jsstring -> list jsstring.

Definition sanitizeText (text : jsstring) : jsstring :=
  Js.trim (Js.removeNonWordNonSpace (toLowerCase text)).

Definition splitIntoSemantics (text : jsstring) : list jsstring :=
  if List.length (splitIntoWords text) <=? 1 then []
  else splitter text.

Definition splitText (text : jsstring) : list jsstring * list jsstring :=
  let words := splitIntoWords text in
  let semantics := splitIntoSemantics text in
  (words, semantics).
End Runtime.

End TextProcessor.

(** ** The order in which the pending promises of a [Promise.all] settle

    Every pending lookup settles once; which one settles next is not fixed by
    the program.  A run is given a list of choices: the next lookup to settle
    is the one at position [choice mod (number pending)] among those still
    pending (position 0 once the choices are used up). *)

Module Scheduler.

Fixpoint takeAt {A : Type} (i : nat) (l : list A) {struct l}
  : option (A * list A) :=
  match l with
  | [] => None
  | x :: r =>
      match i with
      | O => Some (x, r)
      | S j =>
          match takeAt j r with
          | Some (y, r') => Some (y, x :: r')
          | None => None
          end
      end
  end.

Fixpoint settleOrder {A : Type} (fuel : nat) (choices : list nat)
  (pending : list A) : list A :=
  match fuel with
  | O => []
  | S fuel' =>
      match takeAt (hd 0 choices mod List.length pending) pending with
      | None => []
      | Some (x, rest) => x :: settleOrder fuel' (tl choices) rest
      end
  end.

Definition completionOrder {A : Type} (choices : list nat) (pending : list A)
  : list A :=
  settleOrder (List.length pending) choices pending.

End Scheduler.

(** The choices of one request: for the word lookups and for the chunk
    lookups. *)
Record Schedule : Type := { wordChoices : list nat; chunkChoices : list nat }.

(** Lookups settle in the order they were issued. *)
Definition inOrder : Schedule := {| wordChoices := []; chunkChoices := [] |}.

(** ** [class ProfanityDetectorAPI] *)

(** A query sent to the index, and the loop that sent it. *)
Inductive Lookup : Type :=
| WordLookup (word : jsstring)
| ChunkLookup (chunk : jsstring).

(** The run of an [async] function: the queries it sent, and the value it
    returned or threw. *)
Record Run (A : Type) : Type := { queries : list Lookup; result : Thrown + A }.
Arguments queries {A} _.
Arguments result {A} _.

Inductive Payload : Type :=
| MensagemObrigatoria                   (* {error: 'Mensagem é obrigatória.'} *)
| LimiteExcedido                        (* {error: 'Limite excedido: ...'} *)
| EsperadoCorpoJSON                     (* {error: 'Esperado corpo JSON.'} *)
| ErroInterno (details : jsstring)      (* {error: 'Erro interno do servidor.', details} *)
| Analysis (r : TextAnalysisResult.t).

Record Response : Type := { status : nat; payload : Payload }.

(** The Hono context [c] as far as the handler reads it: the [Content-Type]
    header, what [c.req.json()] settles to, and the index the environment
    names. *)
Record HonoContext : Type :=
  { contentType : option jsstring;
    json : Thrown + RequestBody;
    vectorClient : Index }.

Module ProfanityDetectorAPI.

Definition Key := option jsstring.

Definition Key_eq_dec (a b : Key) : {a = b} + {a <> b}.
Proof. decide equality. apply Js.eq_dec. Defined.

(** [Map<string, FlaggedContent>] *)
Definition FlaggedMap := @JsMap.t Key FlaggedContent.t.

Definition set (k : Key) (v : FlaggedContent.t) (m : FlaggedMap) : FlaggedMap :=
  JsMap.set Key_eq_dec k v m.

Definition get (k : Key) (m : FlaggedMap) : option FlaggedContent.t :=
  JsMap.get Key_eq_dec k m.

(** [validateRequest]: [null] is [None]. *)
Definition validateRequest (body : RequestBody) : option Response :=
  let message := message body in
  if Js.length message =? 0     (* !message *)
  then Some {| status := 400; payload := MensagemObrigatoria |}
  else
    let wordCount := List.length (Js.splitOnSpaces message) in
    if (CONFIG.MAX_WORDS <? wordCount) || (CONFIG.MAX_CHARS <? Js.length message)
    then Some {| status := 413; payload := LimiteExcedido |}
    else None.

(** [findHighestScore] *)
Definition findHighestScore (flaggedContent : FlaggedMap)
  : option FlaggedResult.t :=
  fst (JsMap.forEach
         (fun (st : option FlaggedResult.t * float) details flag =>
            let (highest, maxScore) := st in
            if Num.gt (FlaggedContent.score details) maxScore
            then (Some {| FlaggedResult.flag := flag;
                          FlaggedResult.details := details |},
                  FlaggedContent.score details)
            else (highest, maxScore))
         flaggedContent
         (None, (-1)%float)).

(** The body of the word callback after its [await]: [vectors] is what the
    query resolved with. *)
Definition wordResume (originalContext word : jsstring)
  (vectors : list Vector.t) (flaggedContent : FlaggedMap) : FlaggedMap :=
  match vectors with
  | [] => flaggedContent
  | vector :: _ =>
      match Vector.score vector with
      | None => flaggedContent
      | Some score =>
          if Num.truthy score && Num.gt score CONFIG.WORD_THRESHOLD
          then
            let flaggedWord := Vector.metadataText vector in
            if negb (TextProcessor.isAllowedInContext flaggedWord originalContext)
            then set flaggedWord
                     {| FlaggedContent.score := score;
                        FlaggedContent.context := word |}
                     flaggedContent
            else flaggedContent
          else flaggedContent
      end
  end.

(** The body of the chunk callback after its [await]. *)
Definition chunkResume (chunk : jsstring)
  (vectors : list Vector.t) (flaggedContent : FlaggedMap) : FlaggedMap :=
  match vectors with
  | [] => flaggedContent
  | vector :: _ =>
      match Vector.score vector with
      | None => flaggedContent
      | Some score =>
          if Num.truthy score && Num.gt score CONFIG.SEMANTIC_THRESHOLD
          then
            let flaggedPhrase := Vector.metadataText vector in
            set flaggedPhrase
                {| FlaggedContent.score := score;
                   FlaggedContent.context := chunk |}
                flaggedContent
          else flaggedContent
      end
  end.

(** [await Promise.all(units.map(async unit => ...))] once the queries are
    sent: the lookups settle in the order [settled]; a resolved one runs the
    rest of its callback on the shared map, the first rejected one rejects
    the [Promise.all], and the [await] throws. *)
Fixpoint awaitAll (index : Index)
  (resume : jsstring -> list Vector.t -> FlaggedMap -> FlaggedMap)
  (settled : list jsstring) (flaggedContent : FlaggedMap)
  : Thrown + FlaggedMap :=
  match settled with
  | [] => inr flaggedContent
  | unit :: rest =>
      match index unit with
      | Rejected err => inl err
      | Resolved vectors =>
          awaitAll index resume rest (resume unit vectors flaggedContent)
      end
  end.

(** The words whose callback reaches [index.query]: the others return at
    [if (ALLOWED_WORDS.GENERAL.has(word)) return]. *)
Definition queriedWords (words : list jsstring) : list jsstring :=
  filter (fun word => negb (ALLOWED_WORDS.GENERAL_has word)) words.

(** Lines 198-221: the map after the word analysis. *)
Definition wordAnalysis (index : Index) (words : list jsstring)
  (originalContext : jsstring) (sched : Schedule) : Thrown + FlaggedMap :=
  awaitAll index (wordResume originalContext)
           (Scheduler.completionOrder (wordChoices sched) (queriedWords words))
           JsMap.empty.

(** Lines 224-242: the map after the semantic analysis. *)
Definition semanticAnalysis (index : Index) (semantics : list jsstring)
  (sched : Schedule) (flaggedContent : FlaggedMap) : Thrown + FlaggedMap :=
  if 0 <? List.length semantics
  then awaitAll index chunkResume
                (Scheduler.completionOrder (chunkChoices sched) semantics)
                flaggedContent
  else inr flaggedContent.

(** Lines 198-242: [flaggedContent] when line 244 is reached, with the
    queries sent on the way. *)
Definition collectFlagged (index : Index) (words semantics : list jsstring)
  (originalContext : jsstring) (sched : Schedule) : Run FlaggedMap :=
  let sentForWords := List.map WordLookup (queriedWords words) in
  match wordAnalysis index words originalContext sched with
  | inl err => {| queries := sentForWords; result := inl err |}
  | inr flaggedContent =>
      {| queries := sentForWords ++ List.map ChunkLookup semantics;
         result := semanticAnalysis index semantics sched flaggedContent |}
  end.

(** Lines 244-258. *)
Definition verdict (flaggedContent : FlaggedMap) : TextAnalysisResult.t :=
  match findHighestScore flaggedContent with
  | Some highestScore =>
      {| TextAnalysisResult.isImproprio := true;
         TextAnalysisResult.pontuacao :=
           FlaggedContent.score (FlaggedResult.details highestScore);
         TextAnalysisResult.flag := FlaggedResult.flag highestScore;
         TextAnalysisResult.contexto :=
           Some (FlaggedContent.context (FlaggedResult.details highestScore)) |}
  | None =>
      {| TextAnalysisResult.isImproprio := false;
         TextAnalysisResult.pontuacao := 0%float;
         TextAnalysisResult.flag := None;
         TextAnalysisResult.contexto := None |}
  end.

(** [analyzeContent] *)
Definition analyzeContent (index : Index) (words semantics : list jsstring)
  (originalContext : jsstring) (sched : Schedule) : Run TextAnalysisResult.t :=
  let collected := collectFlagged index words semantics originalContext sched in
  {| queries := queries collected;
     result := match result collected with
               | inl err => inl err
               | inr flaggedContent => inr (verdict flaggedContent)
               end |}.

Section Runtime.
Variable toLowerCase : jsstring -> jsstring.
Variable splitter : jsstring -> list jsstring.

(** [handleDetection] *)
Definition handleDetection (c : HonoContext) (sched : Schedule)
  : Run Response :=
  match contentType c with
  | Some ct =>
      if Js.eqb ct (Js.lit "application/json")
      then
        match json c with
        | inl err => {| queries := []; result := inl err |}
        | inr body =>
            match validateRequest body with
            | Some validationError =>
                {| queries := []; result := inr validationError |}
            | None =>
                let index := vectorClient c in
                let sanitizedMessage :=
                  TextProcessor.sanitizeText toLowerCase (message body) in
                let (words, semantics) :=
                  TextProcessor.splitText splitter sanitizedMessage in
                let analysis :=
                  analyzeContent index words semantics sanitizedMessage sched in
                {| queries := queries analysis;
                   result :=
                     match result analysis with
                     | inl err => inl err
                     | inr r => inr {| status := 200; payload := Analysis r |}
                     end |}
            end
        end
      else {| queries := [];
              result := inr {| status := 406; payload := EsperadoCorpoJSON |} |}
  | None => {| queries := [];
               result := inr {| status := 406; payload := EsperadoCorpoJSON |} |}
  end.

(** The handler [setupRoutes] registers for [POST /]: the response the
    client gets, with the queries sent. *)
Definition postRoot (c : HonoContext) (sched : Schedule)
  : list Lookup * Response :=
  let handled := handleDetection c sched in
  (queries handled,
   match result handled with
   | inr response => response
   | inl err =>
       {| status := 500;
          payload := ErroInterno
                       match err with
                       | ErrorObject message => message
                       | OtherValue => Js.lit "Unknown error"
                       end |}
   end).
End Runtime.

End ProfanityDetectorAPI.

(** ** langchain's [RecursiveCharacterTextSplitter]

    [TextProcessor]'s constructor builds
    [new RecursiveCharacterTextSplitter({chunkSize: 25, separators: [' '],
    chunkOverlap: 8})], and [splitIntoSemantics] returns the [pageContent] of
    the documents of its [createDocuments([text])].  The class comes from the
    package [langchain] ([langchain/text_splitter]), whose code is not part of
    the repository: the definitions below follow the algorithm of the
    package's [TextSplitter] and [RecursiveCharacterTextSplitter], for the
    fields this constructor sets and the defaults of the others
    ([keepSeparator] is [true], [lengthFunction] is [text => text.length]). *)

Module RecursiveCharacterTextSplitter.

Definition chunkSize : nat := CONFIG.CHUNK_SIZE.
Definition chunkOverlap : nat := CONFIG.CHUNK_OVERLAP.

(** The only separator of [separators]: the space. *)
Definition space : Js.codeunit := 32%N.

(** [text.split(new RegExp(`(?=${separator})`))] for a separator of one code
    unit: the text is cut before each occurrence of the separator, which stays
    at the head of the piece it starts.  [acc] is the piece being read,
    reversed.  The piece before a separator at the head of the text is empty
    here and absent in JavaScript; [splitOnSeparator] drops the empty pieces
    in both. *)
Fixpoint splitBefore (separator : Js.codeunit) (acc : jsstring) (s : jsstring)
  : list jsstring :=
  match s with
  | [] => [rev acc]
  | c :: r =>
      if (c =? separator)%N then rev acc :: splitBefore separator [c] r
      else splitBefore separator (c :: acc) r
  end.

(** [splitOnSeparator(text, separator)] with [keepSeparator]; with no
    separator ([undefined], or the empty string) the pieces are the code units,
    [text.split("")].  The empty pieces are filtered out
    ([splits.filter(s => s !== "")]). *)
Definition splitOnSeparator (text : jsstring) (separator : option Js.codeunit)
  : list jsstring :=
  filter (fun s => 0 <? List.length s)
         match separator with
         | Some sep => splitBefore sep [] text
         | None => map (fun c => [c]) text
         end.

(** [joinDocs(docs, separator)] for the separator [mergeSplits] is given under
    [keepSeparator], the empty string: [docs.join("").trim()], [null] when
    that is empty. *)
Definition joinDocs (docs : list jsstring) : option jsstring :=
  match Js.trim (List.concat docs) with
  | [] => None
  | text => Some text
  end.

(** [const doc = this.joinDocs(currentDoc, separator);
     if (doc !== null) docs.push(doc)] : what is added to [docs]. *)
Definition pushed (currentDoc : list jsstring) : list jsstring :=
  match joinDocs currentDoc with
  | Some doc => [doc]
  | None => []
  end.

(** The inner loop of [mergeSplits], before the piece of [len] code units is
    added:
    [while (total > chunkOverlap ||
            (total + len + currentDoc.length * separator.length > chunkSize
             && total > 0))
       { total -= currentDoc[0].length; currentDoc.shift() }].
    [total] is the number of code units of [currentDoc], so that the loop has
    ended when [currentDoc] is empty. *)
Fixpoint shiftWhile (len : nat) (currentDoc : list jsstring) (total : nat)
  : list jsstring * nat :=
  match currentDoc with
  | [] => ([], total)
  | first :: rest =>
      if (chunkOverlap <? total) || ((chunkSize <? total + len) && (0 <? total))
      then shiftWhile len rest (total - List.length first)
      else (currentDoc, total)
  end.

(** The loop of [mergeSplits(splits, separator)] over [splits], for the empty
    separator; the result is what the loop and the lines after it add to
    [docs], in order. *)
Fixpoint mergeLoop (currentDoc : list jsstring) (total : nat)
  (splits : list jsstring) : list jsstring :=
  match splits with
  | [] => pushed currentDoc
  | d :: rest =>
      let len := List.length d in
      if chunkSize <? total + len
      then
        match currentDoc with
        | [] => mergeLoop [d] (total + len) rest
        | _ :: _ =>
            let (kept, total') := shiftWhile len currentDoc total in
            pushed currentDoc ++ mergeLoop (kept ++ [d]) (total' + len) rest
        end
      else mergeLoop (currentDoc ++ [d]) (total + len) rest
  end.

Definition mergeSplits (splits : list jsstring) : list jsstring :=
  mergeLoop [] 0 splits.

(** [if (goodSplits.length) finalChunks.push(...mergeSplits(goodSplits))] *)
Definition merged (goodSplits : list jsstring) : list jsstring :=
  match goodSplits with
  | [] => []
  | _ :: _ => mergeSplits goodSplits
  end.

(** The loop of [_splitText] over the pieces: a piece shorter than
    [chunkSize] joins [goodSplits]; a longer one ends them and is split
    further with the separators that are left ([further]), or is a chunk as it
    is when there is none ([newSeparators] is [undefined]). *)
Fixpoint splitLoop (further : option (jsstring -> list jsstring))
  (goodSplits : list jsstring) (splits : list jsstring) : list jsstring :=
  match splits with
  | [] => merged goodSplits
  | s :: rest =>
      if List.length s <? chunkSize
      then splitLoop further (goodSplits ++ [s]) rest
      else merged goodSplits
           ++ match further with
              | None => [s]
              | Some splitText => splitText s
              end
           ++ splitLoop further [] rest
  end.

(** [_splitText(text, [])], the call on a long piece: there is no separator
    ([separators[separators.length - 1]] is [undefined]) and none is left. *)
Definition _splitTextOnNothing (text : jsstring) : list jsstring :=
  splitLoop None [] (splitOnSeparator text None).

(** [_splitText(text, [' '])].  When the text holds a space the separators
    that are left are [separators.slice(1)], the empty array, which is not
    [undefined]: a long piece is split further.  When it holds none, the
    separator is still the last one, the space, and none is left. *)
Definition _splitText (text : jsstring) : list jsstring :=
  if Js.includes text [space]
  then splitLoop (Some _splitTextOnNothing) []
                 (splitOnSeparator text (Some space))
  else splitLoop None [] (splitOnSeparator text (Some space)).

Definition splitText (text : jsstring) : list jsstring := _splitText text.

(** The [pageContent] of the documents of [createDocuments([text])]: the
    chunks of [splitText], behind the empty chunk header. *)
Definition createDocuments (text : jsstring) : list jsstring :=
  splitText text.

End RecursiveCharacterTextSplitter.

(** * Notions the properties are stated with *)

Module Notions.

Import ProfanityDetectorAPI.

(** The text a lookup sent. *)
Definition lookupText (q : Lookup) : jsstring :=
  match q with
  | WordLookup word => word
  | ChunkLookup chunk => chunk
  end.

(** The candidate the callback of [unit] writes for the score [score]. *)
Definition candidate (unit : jsstring) (score : float) : FlaggedContent.t :=
  {| FlaggedContent.score := score; FlaggedContent.context := unit |}.

(** An entry of the map that came from the lookup of one of [units]: its
    score is the one the index gave for its context, its key the label the
    index gave, and the score is above the word threshold. *)
Definition FromLookup (index : Index) (units : list jsstring)
  (e : Key * FlaggedContent.t) : Prop :=
  In (FlaggedContent.context (snd e)) units /\
  Num.gt (FlaggedContent.score (snd e)) CONFIG.WORD_THRESHOLD = true /\
  exists vector rest,
    index (FlaggedContent.context (snd e)) = Resolved (vector :: rest) /\
    Vector.score vector = Some (FlaggedContent.score (snd e)) /\
    Vector.metadataText vector = fst e.

Definition Sound (index : Index) (units : list jsstring) (m : FlaggedMap) : Prop :=
  forall e, In e m -> FromLookup index units e.

(** The callback of [flaggedContent.forEach] on the pair
    [(highest, maxScore)]. *)
Definition visit (st : option FlaggedResult.t * float)
  (e : Key * FlaggedContent.t) : option FlaggedResult.t * float :=
  let (highest, maxScore) := st in
  if Num.gt (FlaggedContent.score (snd e)) maxScore
  then (Some {| FlaggedResult.flag := fst e; FlaggedResult.details := snd e |},
        FlaggedContent.score (snd e))
  else (highest, maxScore).

Definition reported (e : Key * FlaggedContent.t) : FlaggedResult.t :=
  {| FlaggedResult.flag := fst e; FlaggedResult.details := snd e |}.

Definition scoreOf (e : Key * FlaggedContent.t) : float :=
  FlaggedContent.score (snd e).

Definition clean : TextAnalysisResult.t :=
  {| TextAnalysisResult.isImproprio := false;
     TextAnalysisResult.pontuacao := 0%float;
     TextAnalysisResult.flag := None;
     TextAnalysisResult.contexto := None |}.

Definition flagged (e : Key * FlaggedContent.t) : TextAnalysisResult.t :=
  {| TextAnalysisResult.isImproprio := true;
     TextAnalysisResult.pontuacao := FlaggedContent.score (snd e);
     TextAnalysisResult.flag := fst e;
     TextAnalysisResult.contexto := Some (FlaggedContent.context (snd e)) |}.

(** What the callback of a lookup writes to the map once its query has
    settled: nothing, or a candidate under the label the index returned. *)
Definition records (index : Index) (originalContext : jsstring) (q : Lookup)
  : option (Key * FlaggedContent.t) :=
  match index (lookupText q) with
  | Rejected _ => None
  | Resolved [] => None
  | Resolved (vector :: _) =>
      match Vector.score vector with
      | None => None
      | Some score =>
          match q with
          | WordLookup word =>
              if Num.gt score CONFIG.WORD_THRESHOLD
                 && negb (TextProcessor.isAllowedInContext
                            (Vector.metadataText vector) originalContext)
              then Some (Vector.metadataText vector, candidate word score)
              else None
          | ChunkLookup chunk =>
              if Num.gt score CONFIG.SEMANTIC_THRESHOLD
              then Some (Vector.metadataText vector, candidate chunk score)
              else None
          end
      end
  end.

Definition write (index : Index) (originalContext : jsstring)
  (m : FlaggedMap) (q : Lookup) : FlaggedMap :=
  match records index originalContext q with
  | Some (label, c) => set label c m
  | None => m
  end.

(** The lookups of a run in the order they settle: the words that are
    queried, then the chunks. *)
Definition settledLookups (words semantics : list jsstring) (sched : Schedule)
  : list Lookup :=
  List.map WordLookup
    (Scheduler.completionOrder (wordChoices sched) (queriedWords words))
  ++ List.map ChunkLookup
       (Scheduler.completionOrder (chunkChoices sched) semantics).

(** [sub] occurs in [s]. *)
Definition occursIn (sub s : jsstring) : Prop :=
  exists pre post, s = pre ++ sub ++ post.

(** A request with the JSON content type whose body parses to [body]. *)
Definition jsonRequest (body : RequestBody) (index : Index) : HonoContext :=
  {| contentType := Some (Js.lit "application/json");
     json := inr body;
     vectorClient := index |}.

(** A code unit that lower-casing leaves alone in any string: a lower-case
    ASCII letter, a digit, the underscore, or white space. *)
Definition caseless (c : Js.codeunit) : bool :=
  Js.isLower c || Js.isDigit c || (c =? 95)%N || Js.isSpace c.

(** The last code unit is not white space (so there is one). *)
Definition endsNonSpace (s : jsstring) : Prop :=
  Js.isSpace (List.last s 32%N) = false.

End Notions.

(** ** Where an occurrence lies *)

Module SplitterNotions.

(** The occurrence of [c] between [before] and [after] lies within a chunk, as
    the chunk lies in the text: the chunk is [mid ++ c :: rest], it starts
    [mid] before the occurrence and ends [rest] after it. *)
Definition within (chunks : list jsstring) (before : jsstring)
  (c : Js.codeunit) (after : jsstring) : Prop :=
  exists chunk left mid rest right,
    In chunk chunks /\
    chunk = mid ++ c :: rest /\
    before = left ++ mid /\
    after = rest ++ right.

End SplitterNotions.

(** ** A test double of the index, for the examples *)

Module Examples.

Definition entry (score : float) (label : string) : Vector.t :=
  {| Vector.score := Some score;
     Vector.metadata := Some {| Vector.text := Some (Js.lit label) |} |}.
Arguments entry score%_float label%_string.

(** The index answers a handful of queries; the lookup of ["down"] fails,
    and the answer to ["bare"] has a score and no metadata. *)
Definition index : Index :=
  fun query =>
    if Js.eqb query (Js.lit "down")
    then Rejected (ErrorObject (Js.lit "fetch failed"))
    else if Js.eqb query (Js.lit "darn") then Resolved [entry 0.99 "darn"]
    else if Js.eqb query (Js.lit "dang") then Resolved [entry 0.98 "darn"]
    else if Js.eqb query (Js.lit "heck") then Resolved [entry 0.97 "heck"]
    else if Js.eqb query (Js.lit "blak") then Resolved [entry 0.97 "black"]
    else if Js.eqb query (Js.lit "black") then Resolved [entry 1.0 "black"]
    else if Js.eqb query (Js.lit "black belt") then Resolved [entry 0.97 "black"]
    else if Js.eqb query (Js.lit "bare")
         then Resolved [ {| Vector.score := Some 0.99%float;
                            Vector.metadata := None |} ]
    else Resolved [].

(** The words of an ASCII message. *)
Definition words (s : string) : list jsstring :=
  TextProcessor.splitIntoWords (Js.lit s).
Arguments words s%_string.

(** ASCII letters to lower case, every other code unit kept: what
    [toLowerCase] does on ASCII text. *)
Definition asciiLower (s : jsstring) : jsstring :=
  List.map (fun c => if Js.isUpper c then (c + 32)%N else c) s.

(** The splitter on a short text: a sanitized text of less than [CHUNK_SIZE]
    code units is one chunk, the text. *)
Definition oneChunk (text : jsstring) : list jsstring := [text].

End Examples.

(** ** [seed.ts]: loading the index *)

Module Seed.

(** [interface Row] *)
Record Row : Type := { text : jsstring }.

(** An element of the array given to [index.upsert]:
    [{data, id, metadata: {text}}]. *)
Record Item : Type :=
  { data : jsstring; id : nat; metadata : Vector.Metadata }.

(** What the promise of [index.upsert(batch)] settles to: [None] when it
    resolves, the thrown value when it is rejected. *)
Definition Upsert := list Item -> option Thrown.

Definition STEP : nat := 30.

(** [data.slice(i, j)] for [i <= j]. *)
Definition slice {A : Type} (l : list A) (i j : nat) : list A :=
  firstn (j - i) (skipn i l).

(** [chunk.map((row, batchIndex) => ({data: row.text, id: i + batchIndex,
    metadata: {text: row.text}}))], [batchIndex] counting from [from]. *)
Fixpoint format (i from : nat) (chunk : list Row) : list Item :=
  match chunk with
  | [] => []
  | row :: rest =>
      {| data := text row;
         id := i + from;
         metadata := {| Vector.text := Some (text row) |} |}
      :: format i (S from) rest
  end.

(** The run of [seed]: the batches given to [index.upsert], in order, and
    whether it returned or threw. *)
Record Run : Type := { upserts : list (list Item); outcome : Thrown + unit }.

(** The [for] loop of [seed] from the value [i] of its counter; [None] when
    [fuel] iterations do not reach its end. *)
Fixpoint seedLoop (fuel : nat) (upsert : Upsert) (data : list Row) (i : nat)
  : option Run :=
  match fuel with
  | O => None
  | S fuel' =>
      if i <? List.length data
      then
        let chunk := slice data i (i + STEP) in
        let formatted := format i 0 chunk in
        match upsert formatted with
        | Some err => Some {| upserts := [formatted]; outcome := inl err |}
        | None =>
            match seedLoop fuel' upsert data (i + STEP) with
            | Some run =>
                Some {| upserts := formatted :: upserts run;
                        outcome := outcome run |}
            | None => None
            end
        end
      else Some {| upserts := []; outcome := inr tt |}
  end.

(** [seed], given what [parseCSV("training_data.csv")] settles to.  The loop
    runs at most once per row, and once more to leave. *)
Definition seed (upsert : Upsert) (parsed : Thrown + list Row) : option Run :=
  match parsed with
  | inl err => Some {| upserts := []; outcome := inl err |}
  | inr data => seedLoop (S (List.length data)) upsert data 0
  end.

End Seed.

(** * Notions the further properties are stated with *)

Module MoreNotions.

(** The item [seed] makes of the row at position [k] of the file. *)
Definition itemOf (k : nat) (row : Seed.Row) : Seed.Item :=
  {| Seed.data := Seed.text row;
     Seed.id := k;
     Seed.metadata := {| Vector.text := Some (Seed.text row) |} |}.

(** The items of the rows [rows], the first of which is at position [k]. *)
Fixpoint itemsFrom (k : nat) (rows : list Seed.Row) : list Seed.Item :=
  match rows with
  | [] => []
  | row :: rest => itemOf k row :: itemsFrom (S k) rest
  end.

(** The queries of the word analysis and of the semantic analysis. *)
Definition wordLookups (words : list jsstring) : list Lookup :=
  List.map WordLookup (ProfanityDetectorAPI.queriedWords words).

Definition chunkLookups (semantics : list jsstring) : list Lookup :=
  List.map ChunkLookup semantics.

(** The empty pieces of a list of pieces. *)
Definition empties (pieces : list jsstring) : nat :=
  List.length (filter (fun piece => negb (0 <? List.length piece)) pieces).

End MoreNotions.

(** * Lemmas *)

(** ** The order of JavaScript numbers *)

Module NumFacts.

Import Num.
Local Open Scope float_scope.

Ltac fold_compare :=
  repeat match goal with
    | H : context [PosDef.Pos.compare_cont Eq ?a ?b] |- _ =>
        change (PosDef.Pos.compare_cont Eq a b) with (Pos.compare a b) in H
    | |- context [PosDef.Pos.compare_cont Eq ?a ?b] =>
        change (PosDef.Pos.compare_cont Eq a b) with (Pos.compare a b)
    end.

Ltac split_compare :=
  repeat match goal with
    | H : context [Z.compare ?a ?b] |- _ => destruct (Z.compare_spec a b)
    | |- context [Z.compare ?a ?b] => destruct (Z.compare_spec a b)
    | H : context [Pos.compare ?a ?b] |- _ => destruct (Pos.compare_spec a b)
    | |- context [Pos.compare ?a ?b] => destruct (Pos.compare_spec a b)
    end.

Ltac by_cases_on_floats :=
  simpl; intros; fold_compare; unfold CompOpp in *; split_compare;
  try discriminate; try reflexivity; try lia; try congruence.

(** The comparison of the specification is a strict order where it is
    defined. *)
Lemma SFcompare_trans_lt (a b c : spec_float) :
  SFcompare a b = Some Lt -> SFcompare b c = Some Lt -> SFcompare a c = Some Lt.
Proof.
  destruct a as [sa|sa| |sa ma ea], b as [sb|sb| |sb mb eb],
           c as [sc|sc| |sc mc ec];
    try destruct sa; try destruct sb; try destruct sc; by_cases_on_floats.
Qed.

Lemma SFcompare_trans_le_lt (a b c : spec_float) :
  SFcompare a b = Some Eq -> SFcompare b c = Some Lt -> SFcompare a c = Some Lt.
Proof.
  destruct a as [sa|sa| |sa ma ea], b as [sb|sb| |sb mb eb],
           c as [sc|sc| |sc mc ec];
    try destruct sa; try destruct sb; try destruct sc; by_cases_on_floats.
Qed.

Lemma SFcompare_antisym (a b : spec_float) :
  SFcompare a b = Some Gt -> SFcompare b a = Some Lt.
Proof.
  destruct a as [sa|sa| |sa ma ea], b as [sb|sb| |sb mb eb];
    try destruct sa; try destruct sb; by_cases_on_floats.
Qed.

Lemma SFcompare_defined (a b : spec_float) :
  a <> S754_nan -> b <> S754_nan -> SFcompare a b <> None.
Proof.
  destruct a as [sa|sa| |sa ma ea], b as [sb|sb| |sb mb eb];
    try destruct sa; try destruct sb; by_cases_on_floats.
Qed.

Lemma SFcompare_lt_not_nan (a b : spec_float) :
  SFcompare a b = Some Lt -> a <> S754_nan /\ b <> S754_nan.
Proof.
  destruct a as [sa|sa| |sa ma ea], b as [sb|sb| |sb mb eb];
    simpl; intros; split; congruence.
Qed.

(** *** The same facts on the primitive numbers *)

Lemma gt_spec (x y : float) :
  gt x y = true <-> SFcompare (Prim2SF y) (Prim2SF x) = Some Lt.
Proof.
  unfold gt. rewrite ltb_spec. unfold SFltb.
  destruct (SFcompare (Prim2SF y) (Prim2SF x)) as [[ | | ]|];
    split; congruence.
Qed.

Lemma isNaN_spec (x : float) : isNaN x = true <-> Prim2SF x = S754_nan.
Proof.
  unfold isNaN, is_nan. rewrite eqb_spec. unfold SFeqb.
  destruct (Prim2SF x) as [s|s| |s m e]; simpl; try destruct s;
    fold_compare; try rewrite Z.compare_refl; try rewrite Pos.compare_refl;
    simpl; split; congruence.
Qed.

Lemma isNaN_false (x : float) : isNaN x = false <-> Prim2SF x <> S754_nan.
Proof.
  rewrite <- isNaN_spec. destruct (isNaN x); split; congruence.
Qed.

Lemma gt_trans (x y z : float) :
  gt x y = true -> gt y z = true -> gt x z = true.
Proof.
  rewrite !gt_spec. intros Hxy Hyz. exact (SFcompare_trans_lt _ _ _ Hyz Hxy).
Qed.

Lemma gt_irrefl (x : float) : gt x x = false.
Proof.
  destruct (gt x x) eqn:E; [|reflexivity]. exfalso.
  apply gt_spec in E. revert E.
  destruct (Prim2SF x) as [s|s| |s m e]; simpl; try destruct s;
    fold_compare; try rewrite Z.compare_refl; try rewrite Pos.compare_refl;
    simpl; congruence.
Qed.

Lemma gt_asym (x y : float) : gt x y = true -> gt y x = false.
Proof.
  intros H. destruct (gt y x) eqn:E; [|reflexivity].
  rewrite <- (gt_irrefl x). symmetry. exact (gt_trans _ _ _ H E).
Qed.

Lemma gt_not_NaN (x y : float) :
  gt x y = true -> isNaN x = false /\ isNaN y = false.
Proof.
  rewrite gt_spec, !isNaN_false. intros H.
  destruct (SFcompare_lt_not_nan _ _ H). tauto.
Qed.

(** Among numbers that are not [NaN], "not greater" is "less or equal". *)
Lemma not_gt_le (x y : float) :
  isNaN x = false -> isNaN y = false -> gt x y = false -> le x y = true.
Proof.
  rewrite !isNaN_false. intros Hx Hy Hgt.
  unfold le. rewrite leb_spec. unfold SFleb.
  destruct (SFcompare (Prim2SF x) (Prim2SF y)) as [[ | | ]|] eqn:E;
    try reflexivity.
  - apply SFcompare_antisym in E. apply gt_spec in E. congruence.
  - exfalso. exact (SFcompare_defined _ _ Hx Hy E).
Qed.

Lemma le_not_gt (x y : float) : le x y = true -> gt x y = false.
Proof.
  unfold le. rewrite leb_spec. unfold SFleb. intros H.
  destruct (gt x y) eqn:E; [|reflexivity]. exfalso.
  apply gt_spec in E.
  destruct (SFcompare (Prim2SF x) (Prim2SF y)) as [[ | | ]|] eqn:C;
    try discriminate.
  - pose proof (SFcompare_trans_le_lt _ _ _ C E) as F.
    assert (G : gt x x = true) by (apply gt_spec; exact F).
    rewrite gt_irrefl in G. discriminate.
  - pose proof (SFcompare_trans_lt _ _ _ C E) as F.
    assert (G : gt x x = true) by (apply gt_spec; exact F).
    rewrite gt_irrefl in G. discriminate.
Qed.

Lemma le_gt_trans (x y z : float) :
  le x y = true -> gt z y = true -> gt z x = true.
Proof.
  unfold le. rewrite leb_spec. unfold SFleb. rewrite !gt_spec.
  intros H Hzy.
  destruct (SFcompare (Prim2SF x) (Prim2SF y)) as [[ | | ]|] eqn:C;
    try discriminate.
  - exact (SFcompare_trans_le_lt _ _ _ C Hzy).
  - exact (SFcompare_trans_lt _ _ _ C Hzy).
Qed.

(** A number above a positive bound is truthy. *)
Lemma gt_truthy (x t : float) :
  gt t 0 = true -> gt x t = true -> truthy x = true.
Proof.
  intros Ht Hx. pose proof (gt_trans _ _ _ Hx Ht) as H0.
  unfold truthy. apply negb_true_iff, orb_false_iff. split.
  - destruct (x =? 0) eqn:E; [|reflexivity]. exfalso.
    rewrite eqb_spec in E. apply gt_spec in H0. unfold SFeqb in E.
    destruct (SFcompare (Prim2SF x) (Prim2SF 0)) as [[ | | ]|] eqn:C;
      try discriminate.
    pose proof (SFcompare_trans_le_lt _ _ _ C H0) as F.
    assert (G : gt x x = true) by (apply gt_spec; exact F).
    rewrite gt_irrefl in G. discriminate.
  - apply (gt_not_NaN _ _ Hx).
Qed.

End NumFacts.

(** ** Every settle order is a permutation, and every permutation is one *)

Module SchedulerFacts.

Import Scheduler.

Lemma takeAt_perm {A : Type} (i : nat) (l : list A) (x : A) (r : list A) :
  takeAt i l = Some (x, r) -> Permutation l (x :: r).
Proof.
  revert i x r. induction l as [|a l IH]; intros i x r H.
  - discriminate.
  - destruct i as [|j]; simpl in H.
    + injection H as <- <-. apply Permutation_refl.
    + destruct (takeAt j l) as [[y r']|] eqn:E; [|discriminate].
      injection H as <- <-.
      apply Permutation_trans with (a :: y :: r').
      * apply perm_skip. exact (IH _ _ _ E).
      * apply perm_swap.
Qed.

Lemma takeAt_some {A : Type} (i : nat) (l : list A) :
  i < List.length l -> exists x r, takeAt i l = Some (x, r).
Proof.
  revert i. induction l as [|a l IH]; intros i H; simpl in *.
  - lia.
  - destruct i as [|j]; [eauto|].
    destruct (IH j) as (y & r' & E); [lia|]. rewrite E. eauto.
Qed.

Lemma takeAt_split {A : Type} (l1 l2 : list A) (x : A) :
  takeAt (List.length l1) (l1 ++ x :: l2) = Some (x, l1 ++ l2).
Proof.
  induction l1 as [|a l1 IH]; simpl; [reflexivity|]. now rewrite IH.
Qed.

Lemma settleOrder_perm {A : Type} (fuel : nat) :
  forall (choices : list nat) (pending : list A),
    List.length pending = fuel ->
    Permutation pending (settleOrder fuel choices pending).
Proof.
  induction fuel as [|fuel IH]; intros choices pending Hlen; simpl.
  - destruct pending; [apply perm_nil|discriminate].
  - destruct (takeAt_some (hd 0 choices mod List.length pending) pending)
      as (x & r & E).
    { apply Nat.mod_upper_bound. lia. }
    rewrite E. pose proof (takeAt_perm _ _ _ _ E) as P.
    apply Permutation_trans with (x :: r); [exact P|].
    apply perm_skip. apply IH.
    apply Permutation_length in P. simpl in P. lia.
Qed.

(** The lookups that settle are the pending ones, each once. *)
Lemma completionOrder_perm {A : Type} (choices : list nat) (pending : list A) :
  Permutation pending (completionOrder choices pending).
Proof. apply settleOrder_perm. reflexivity. Qed.

Lemma completionOrder_In {A : Type} (choices : list nat) (pending : list A) (x : A) :
  In x (completionOrder choices pending) <-> In x pending.
Proof.
  split; apply Permutation_in.
  - apply Permutation_sym, completionOrder_perm.
  - apply completionOrder_perm.
Qed.

(** With no choices the lookups settle in the order they were sent. *)
Lemma completionOrder_inOrder {A : Type} (pending : list A) :
  completionOrder [] pending = pending.
Proof.
  unfold completionOrder.
  induction pending as [|x r IH]; simpl; [reflexivity|].
  rewrite Nat.sub_diag. simpl. now rewrite IH.
Qed.

(** Every order of settling is the run of some choices. *)
Lemma completionOrder_complete {A : Type} (settled : list A) :
  forall pending : list A,
    Permutation pending settled ->
    exists choices, completionOrder choices pending = settled.
Proof.
  unfold completionOrder.
  induction settled as [|x settled IH]; intros pending P.
  - apply Permutation_sym, Permutation_nil in P. subst. now exists [].
  - assert (Hin : In x pending).
    { apply (Permutation_in x (Permutation_sym P)). now left. }
    destruct (in_split _ _ Hin) as (l1 & l2 & ->).
    apply Permutation_sym, Permutation_cons_app_inv, Permutation_sym in P.
    destruct (IH _ P) as (choices & E).
    exists (List.length l1 :: choices).
    rewrite length_app. simpl List.length.
    replace (List.length l1 + S (List.length l2))
      with (S (List.length (l1 ++ l2))) by (rewrite length_app; lia).
    simpl settleOrder.
    rewrite Nat.mod_small by (rewrite !length_app; simpl; lia).
    rewrite takeAt_split. now rewrite E.
Qed.

End SchedulerFacts.

(** ** [Map.set] and [Map.get] *)

Module JsMapFacts.
Section WithKey.
Context {K V : Type}.
Variable K_eq_dec : forall a b : K, {a = b} + {a <> b}.

Lemma get_set_same (k : K) (v : V) (m : JsMap.t) :
  JsMap.get K_eq_dec k (JsMap.set K_eq_dec k v m) = Some v.
Proof.
  induction m as [|[k' v'] m IH]; simpl.
  - destruct (K_eq_dec k k); congruence.
  - destruct (K_eq_dec k k') as [->|N]; simpl.
    + destruct (K_eq_dec k' k'); congruence.
    + destruct (K_eq_dec k k'); [contradiction|exact IH].
Qed.

Lemma get_set_other (k k' : K) (v : V) (m : JsMap.t) :
  k <> k' ->
  JsMap.get K_eq_dec k' (JsMap.set K_eq_dec k v m) = JsMap.get K_eq_dec k' m.
Proof.
  intros N. induction m as [|[k0 v0] m IH]; simpl.
  - destruct (K_eq_dec k' k); congruence.
  - destruct (K_eq_dec k k0) as [->|N0]; simpl.
    + destruct (K_eq_dec k' k0); congruence.
    + destruct (K_eq_dec k' k0); [reflexivity|exact IH].
Qed.

Lemma In_set (k k' : K) (v v' : V) (m : JsMap.t) :
  In (k', v') (JsMap.set K_eq_dec k v m) ->
  (k' = k /\ v' = v) \/ In (k', v') m.
Proof.
  induction m as [|[k0 v0] m IH]; simpl.
  - intros [E|[]]. injection E as <- <-. now left.
  - destruct (K_eq_dec k k0) as [->|N]; simpl.
    + intros [E|H]; [injection E as <- <-; now left|now right; right].
    + intros [E|H]; [now right; left|].
      destruct (IH H) as [?|?]; [now left|now right; right].
Qed.

Lemma set_keeps_keys (k k' : K) (v : V) (m : JsMap.t) :
  In k' (JsMap.keys m) -> In k' (JsMap.keys (JsMap.set K_eq_dec k v m)).
Proof.
  unfold JsMap.keys. induction m as [|[k0 v0] m IH]; simpl; [tauto|].
  destruct (K_eq_dec k k0) as [->|N]; simpl; tauto.
Qed.

Lemma set_has_key (k : K) (v : V) (m : JsMap.t) :
  In k (JsMap.keys (JsMap.set K_eq_dec k v m)).
Proof.
  unfold JsMap.keys. induction m as [|[k0 v0] m IH]; simpl; [now left|].
  destruct (K_eq_dec k k0) as [->|N]; simpl; tauto.
Qed.

End WithKey.
End JsMapFacts.

(** ** Strings: [includes], [trim], [replace] and [split] *)

Module JsFacts.

Import Js.

Lemma eqb_eq (a b : jsstring) : eqb a b = true <-> a = b.
Proof. unfold eqb. destruct (eq_dec a b); split; congruence. Qed.

Lemma startsWith_spec (p s : jsstring) :
  startsWith s p = true <-> exists post, s = p ++ post.
Proof.
  revert s. induction p as [|a p IH]; intros s.
  - destruct s; simpl; split; eauto.
  - destruct s as [|b s]; simpl.
    + split; [discriminate|]. intros (post & E). discriminate.
    + rewrite andb_true_iff, N.eqb_eq, IH. split.
      * intros (-> & post & ->). now exists post.
      * intros (post & E). injection E as -> ->. eauto.
Qed.

(** [s.includes(sub)] holds exactly when [sub] occurs in [s]. *)
Lemma includes_spec (s sub : jsstring) :
  includes s sub = true <-> exists pre post, s = pre ++ sub ++ post.
Proof.
  induction s as [|c s IH].
  - cbn [includes]. rewrite orb_false_r, startsWith_spec. split.
    + intros (post & E). now exists [], post.
    + intros (pre & post & E). exists post.
      destruct pre; [exact E|discriminate].
  - cbn [includes]. rewrite orb_true_iff, startsWith_spec, IH. split.
    + intros [(post & E)|(pre & post & E)].
      * now exists [], post.
      * exists (c :: pre), post. now rewrite E.
    + intros (pre & post & E). destruct pre as [|c' pre].
      * left. now exists post.
      * right. injection E as -> ->. now exists pre, post.
Qed.

Lemma dropWhile_In (p : codeunit -> bool) (s : jsstring) (c : codeunit) :
  In c (dropWhile p s) -> In c s.
Proof.
  induction s as [|a s IH]; simpl; [tauto|].
  destruct (p a); simpl; tauto.
Qed.

Lemma dropWhile_idem (p : codeunit -> bool) (s : jsstring) :
  dropWhile p (dropWhile p s) = dropWhile p s.
Proof.
  induction s as [|a s IH]; simpl; [reflexivity|].
  destruct (p a) eqn:E; [exact IH|]. simpl. now rewrite E.
Qed.

Lemma dropWhile_snoc (p : codeunit -> bool) (s : jsstring) (c : codeunit) :
  p c = false -> dropWhile p (s ++ [c]) = dropWhile p s ++ [c].
Proof.
  intros Hc. induction s as [|a s IH]; simpl.
  - now rewrite Hc.
  - destruct (p a); [exact IH|reflexivity].
Qed.

(** What [dropWhile] returns is empty or starts with a kept code unit. *)
Lemma dropWhile_head (p : codeunit -> bool) (s : jsstring) :
  dropWhile p s = [] \/
  exists c r, dropWhile p s = c :: r /\ p c = false.
Proof.
  induction s as [|a s IH]; simpl; [now left|].
  destruct (p a) eqn:E; [exact IH|]. right. eauto.
Qed.

Lemma trim_In (s : jsstring) (c : codeunit) : In c (trim s) -> In c s.
Proof.
  unfold trim, trimEnd, trimStart. intros H.
  apply in_rev in H. apply dropWhile_In in H. apply in_rev in H.
  exact (dropWhile_In _ _ _ H).
Qed.

Lemma trimEnd_idem (s : jsstring) : trimEnd (trimEnd s) = trimEnd s.
Proof.
  unfold trimEnd. now rewrite rev_involutive, dropWhile_idem.
Qed.

(** Trimming the end leaves a string that starts with no white space so. *)
Lemma trimStart_trimEnd (s : jsstring) :
  trimStart s = s -> trimStart (trimEnd s) = trimEnd s.
Proof.
  unfold trimStart, trimEnd. intros H.
  destruct (dropWhile_head isSpace s) as [E|(c & r & E & Hc)];
    rewrite H in E; subst s.
  - reflexivity.
  - simpl rev. rewrite dropWhile_snoc by exact Hc.
    rewrite rev_app_distr. simpl. now rewrite Hc.
Qed.

Lemma trim_idem (s : jsstring) : trim (trim s) = trim s.
Proof.
  unfold trim.
  rewrite (trimStart_trimEnd (trimStart s)) by apply dropWhile_idem.
  apply trimEnd_idem.
Qed.

Lemma filter_all (p : codeunit -> bool) (s : jsstring) :
  (forall c, In c s -> p c = true) -> filter p s = s.
Proof.
  induction s as [|a s IH]; simpl; intros H; [reflexivity|].
  rewrite (H a) by now left. f_equal. apply IH. intros c Hc. apply H. now right.
Qed.

Lemma removeNonWordNonSpace_In (s : jsstring) (c : codeunit) :
  In c (removeNonWordNonSpace s) ->
  In c s /\ (isWordChar c || isSpace c) = true.
Proof. unfold removeNonWordNonSpace. apply filter_In. Qed.

End JsFacts.

(** ** Pieces and words of a message *)

Module SplitFacts.

Import Js JsFacts Notions.

Lemma endsNonSpace_tail (c : codeunit) (r : jsstring) :
  r <> [] -> endsNonSpace (c :: r) -> endsNonSpace r.
Proof. unfold endsNonSpace. destruct r; [congruence|]. simpl. tauto. Qed.

Lemma endsNonSpace_single (c : codeunit) :
  endsNonSpace [c] -> isSpace c = false.
Proof. unfold endsNonSpace. simpl. tauto. Qed.

Lemma splitAux_nonempty (s : jsstring) :
  forall (inGap : bool) (acc : jsstring),
    (s = [] -> acc <> []) ->
    (s <> [] -> endsNonSpace s) ->
    (acc = [] -> exists c r, s = c :: r /\ (isSpace c = false \/ inGap = true)) ->
    Forall (fun piece => piece <> []) (splitAux inGap acc s).
Proof.
  induction s as [|c r IH]; intros inGap acc Hnil Hend Hacc; simpl.
  - constructor; [|constructor].
    intros E. apply (Hnil eq_refl).
    apply (f_equal (@rev _)) in E. now rewrite rev_involutive in E.
  - assert (Hc : endsNonSpace (c :: r)) by (apply Hend; discriminate).
    destruct (isSpace c) eqn:Sp.
    + assert (Hr : r <> []).
      { intros ->. apply endsNonSpace_single in Hc. congruence. }
      assert (Rest : Forall (fun piece => piece <> []) (splitAux true [] r)).
      { apply IH.
        - intros E. contradiction.
        - intros _. exact (endsNonSpace_tail c r Hr Hc).
        - intros _. destruct r as [|c' r']; [congruence|]. eauto. }
      destruct inGap; [exact Rest|].
      constructor; [|exact Rest].
      intros E. apply (f_equal (@rev _)) in E. rewrite rev_involutive in E.
      simpl in E. destruct (Hacc E) as (c0 & r0 & E0 & [Hs|Hg]);
        [injection E0 as <- <-; congruence|discriminate].
    + apply IH.
      * discriminate.
      * intros Hr. exact (endsNonSpace_tail c r Hr Hc).
      * discriminate.
Qed.

Lemma trim_fixed_ends (m : jsstring) :
  trim m = m -> m <> [] ->
  (exists c r, m = c :: r /\ isSpace c = false) /\ endsNonSpace m.
Proof.
  intros Ht Hne.
  assert (Hstart : trimStart m = m).
  { rewrite <- Ht at 1. unfold trim.
    rewrite trimStart_trimEnd by apply dropWhile_idem. exact Ht. }
  assert (Hend : trimEnd m = m).
  { rewrite <- Ht at 1. unfold trim. rewrite trimEnd_idem. exact Ht. }
  split.
  - destruct (dropWhile_head isSpace m) as [E|(c & r & E & Hc)];
      unfold trimStart in Hstart; rewrite Hstart in E; [contradiction|eauto].
  - unfold trimEnd in Hend.
    destruct (dropWhile_head isSpace (rev m)) as [E|(d & r & E & Hd)];
      rewrite E in Hend; simpl in Hend; [congruence|].
    unfold endsNonSpace. rewrite <- Hend. now rewrite last_last.
Qed.

(** A message with no white space at either end splits into its words:
    [split] gives no empty piece. *)
Lemma split_trimmed_words (m : jsstring) :
  trim m = m -> m <> [] ->
  List.length (splitOnSpaces m) = List.length (TextProcessor.splitIntoWords m).
Proof.
  intros Ht Hne. destruct (trim_fixed_ends m Ht Hne) as ((c & r & E & Hc) & Hend).
  unfold TextProcessor.splitIntoWords. f_equal. symmetry.
  assert (F : Forall (fun piece => piece <> []) (splitOnSpaces m)).
  { apply splitAux_nonempty.
    - intros; contradiction.
    - intros _. exact Hend.
    - intros _. exists c, r. split; [exact E|now left]. }
  induction F as [|p l Hp F IH]; simpl; [reflexivity|].
  destruct p; [congruence|]. simpl. now rewrite IH.
Qed.

Lemma dropWhile_nil_all (p : codeunit -> bool) (s : jsstring) :
  dropWhile p s = [] -> forall c, In c s -> p c = true.
Proof.
  induction s as [|a s IH]; simpl; [intros _ c []|].
  destruct (p a) eqn:E; [|discriminate].
  intros H c [<-|Hc]; [exact E|exact (IH H c Hc)].
Qed.

(** A message that trims to nothing is white space only. *)
Lemma trim_nil_all_space (m : jsstring) :
  trim m = [] -> forall c, In c m -> isSpace c = true.
Proof.
  unfold trim, trimEnd. intros H.
  apply (f_equal (@rev _)) in H. rewrite rev_involutive in H. simpl in H.
  apply dropWhile_nil_all.
  destruct (dropWhile_head isSpace m) as [E|(c & r & E & Hc)]; [exact E|].
  unfold trimStart in H. rewrite E in H. simpl in H.
  rewrite dropWhile_snoc in H by exact Hc.
  destruct (dropWhile isSpace (rev r)); discriminate.
Qed.

Lemma splitAux_all_space (s : jsstring) :
  (forall c, In c s -> isSpace c = true) -> splitAux true [] s = [[]].
Proof.
  induction s as [|c r IH]; intros H; simpl; [reflexivity|].
  rewrite (H c) by now left. apply IH. intros x Hx. apply H. now right.
Qed.

(** [split] cuts a message of white space only into two empty pieces. *)
Lemma split_blank (m : jsstring) :
  m <> [] -> trim m = [] -> splitOnSpaces m = [[]; []].
Proof.
  intros Hne Ht. pose proof (trim_nil_all_space m Ht) as Hs.
  destruct m as [|c r]; [congruence|].
  unfold splitOnSpaces. simpl. rewrite (Hs c) by now left.
  f_equal. apply splitAux_all_space. intros x Hx. apply Hs. now right.
Qed.

Lemma words_le_pieces (m : jsstring) :
  List.length (TextProcessor.splitIntoWords m)
  <= List.length (splitOnSpaces m).
Proof. apply filter_length_le. Qed.

End SplitFacts.

(** ** The lookups of one request *)

Module LookupFacts.

Import ProfanityDetectorAPI NumFacts Notions.

Lemma semantic_above_word (s : float) :
  Num.gt s CONFIG.SEMANTIC_THRESHOLD = true ->
  Num.gt s CONFIG.WORD_THRESHOLD = true.
Proof. intros H. apply (gt_trans _ _ _ H). reflexivity. Qed.

Lemma word_threshold_truthy (s : float) :
  Num.gt s CONFIG.WORD_THRESHOLD = true -> Num.truthy s = true.
Proof. apply gt_truthy. reflexivity. Qed.

Lemma semantic_threshold_truthy (s : float) :
  Num.gt s CONFIG.SEMANTIC_THRESHOLD = true -> Num.truthy s = true.
Proof. apply gt_truthy. reflexivity. Qed.

(** What the rest of the word callback does, case by case. *)
Lemma wordResume_cases (originalContext word : jsstring)
  (vectors : list Vector.t) (m : FlaggedMap) :
  (exists vector rest score,
      vectors = vector :: rest /\
      Vector.score vector = Some score /\
      Num.gt score CONFIG.WORD_THRESHOLD = true /\
      TextProcessor.isAllowedInContext (Vector.metadataText vector)
        originalContext = false /\
      wordResume originalContext word vectors m
      = set (Vector.metadataText vector) (candidate word score) m)
  \/ wordResume originalContext word vectors m = m.
Proof.
  unfold wordResume. destruct vectors as [|vector rest]; [now right|].
  destruct (Vector.score vector) as [score|] eqn:Sc; [|now right].
  destruct (Num.truthy score); simpl; [|now right].
  destruct (Num.gt score CONFIG.WORD_THRESHOLD) eqn:G; [|now right].
  destruct (TextProcessor.isAllowedInContext _ _) eqn:Al; simpl; [now right|].
  left. exists vector, rest, score. repeat split; auto.
Qed.

(** What the rest of the chunk callback does, case by case. *)
Lemma chunkResume_cases (chunk : jsstring)
  (vectors : list Vector.t) (m : FlaggedMap) :
  (exists vector rest score,
      vectors = vector :: rest /\
      Vector.score vector = Some score /\
      Num.gt score CONFIG.SEMANTIC_THRESHOLD = true /\
      chunkResume chunk vectors m
      = set (Vector.metadataText vector) (candidate chunk score) m)
  \/ chunkResume chunk vectors m = m.
Proof.
  unfold chunkResume. destruct vectors as [|vector rest]; [now right|].
  destruct (Vector.score vector) as [score|] eqn:Sc; [|now right].
  destruct (Num.truthy score); simpl; [|now right].
  destruct (Num.gt score CONFIG.SEMANTIC_THRESHOLD) eqn:G; [|now right].
  left. exists vector, rest, score. repeat split; auto.
Qed.

Lemma awaitAll_app (index : Index)
  (resume : jsstring -> list Vector.t -> FlaggedMap -> FlaggedMap)
  (l1 l2 : list jsstring) (m : FlaggedMap) :
  awaitAll index resume (l1 ++ l2) m
  = match awaitAll index resume l1 m with
    | inl err => inl err
    | inr m' => awaitAll index resume l2 m'
    end.
Proof.
  revert m. induction l1 as [|u l1 IH]; intros m; simpl; [reflexivity|].
  destruct (index u); [reflexivity|apply IH].
Qed.

(** The [await] throws exactly when one of the lookups is rejected. *)
Lemma awaitAll_throws_iff (index : Index)
  (resume : jsstring -> list Vector.t -> FlaggedMap -> FlaggedMap)
  (settled : list jsstring) (m : FlaggedMap) :
  (exists err, awaitAll index resume settled m = inl err) <->
  (exists unit err, In unit settled /\ index unit = Rejected err).
Proof.
  revert m. induction settled as [|u settled IH]; intros m; simpl.
  - split; [intros (err & E); discriminate|intros (unit & err & [] & _)].
  - destruct (index u) as [err|vectors] eqn:E.
    + split; [intros _; exists u, err; auto|intros _; eauto].
    + rewrite IH. split.
      * intros (unit & err & Hin & Hr). exists unit, err. auto.
      * intros (unit & err & [->|Hin] & Hr); [congruence|eauto].
Qed.

(** A property of the map that every resumed callback keeps holds when the
    [await] returns. *)
Lemma awaitAll_invariant (P : FlaggedMap -> Prop) (index : Index)
  (resume : jsstring -> list Vector.t -> FlaggedMap -> FlaggedMap)
  (settled : list jsstring) :
  (forall unit vectors m,
      In unit settled -> index unit = Resolved vectors -> P m ->
      P (resume unit vectors m)) ->
  forall m m', P m -> awaitAll index resume settled m = inr m' -> P m'.
Proof.
  induction settled as [|u settled IH]; intros Step m m' Hm E; simpl in E.
  - now injection E as <-.
  - destruct (index u) as [err|vectors] eqn:Eu; [discriminate|].
    apply (IH (fun unit vectors m H => Step unit vectors m (or_intror H))
              (resume u vectors m) m'); [|exact E].
    apply Step; auto. now left.
Qed.

Lemma Sound_set (index : Index) (units : list jsstring) (m : FlaggedMap)
  (k : Key) (v : FlaggedContent.t) :
  Sound index units m -> FromLookup index units (k, v) ->
  Sound index units (set k v m).
Proof.
  intros Hm Hv [k' v'] Hin.
  destruct (JsMapFacts.In_set Key_eq_dec k k' v v' m Hin) as [[-> ->]|H];
    [exact Hv|exact (Hm _ H)].
Qed.

Lemma Sound_weaken (index : Index) (units units' : list jsstring) (m : FlaggedMap) :
  (forall u, In u units -> In u units') ->
  Sound index units m -> Sound index units' m.
Proof.
  intros Sub Hm e Hin. destruct (Hm e Hin) as (H1 & H2 & H3).
  split; [apply Sub; exact H1|split; assumption].
Qed.

Lemma wordResume_Sound (index : Index) (units : list jsstring)
  (originalContext word : jsstring) (vectors : list Vector.t) (m : FlaggedMap) :
  In word units -> index word = Resolved vectors ->
  Sound index units m ->
  Sound index units (wordResume originalContext word vectors m).
Proof.
  intros Hin Hq Hm.
  destruct (wordResume_cases originalContext word vectors m)
    as [(vector & rest & score & -> & Sc & G & _ & ->)| ->]; [|exact Hm].
  apply Sound_set; [exact Hm|].
  split; [exact Hin|split; [exact G|]]. exists vector, rest. auto.
Qed.

Lemma chunkResume_Sound (index : Index) (units : list jsstring)
  (chunk : jsstring) (vectors : list Vector.t) (m : FlaggedMap) :
  In chunk units -> index chunk = Resolved vectors ->
  Sound index units m ->
  Sound index units (chunkResume chunk vectors m).
Proof.
  intros Hin Hq Hm.
  destruct (chunkResume_cases chunk vectors m)
    as [(vector & rest & score & -> & Sc & G & ->)| ->]; [|exact Hm].
  apply Sound_set; [exact Hm|].
  split; [exact Hin|split; [exact (semantic_above_word _ G)|]].
  exists vector, rest. auto.
Qed.

(** After the word analysis every entry comes from a word that was queried. *)
Lemma wordAnalysis_Sound (index : Index) (words : list jsstring)
  (originalContext : jsstring) (sched : Schedule) (m : FlaggedMap) :
  wordAnalysis index words originalContext sched = inr m ->
  Sound index (queriedWords words) m.
Proof.
  unfold wordAnalysis.
  apply (awaitAll_invariant (Sound index (queriedWords words))).
  - intros unit vectors m0 Hin Hq Hm0.
    apply wordResume_Sound; auto.
    now apply SchedulerFacts.completionOrder_In in Hin.
  - intros e [].
Qed.

Lemma semanticAnalysis_Sound (index : Index) (units semantics : list jsstring)
  (sched : Schedule) (m m' : FlaggedMap) :
  (forall u, In u semantics -> In u units) ->
  Sound index units m ->
  semanticAnalysis index semantics sched m = inr m' ->
  Sound index units m'.
Proof.
  unfold semanticAnalysis. intros Sub Hm.
  destruct (0 <? List.length semantics); [|now intros [= <-]].
  apply (awaitAll_invariant (Sound index units)); [|exact Hm].
  intros unit vectors m0 Hin Hq Hm0.
  apply chunkResume_Sound; auto.
  apply Sub. now apply SchedulerFacts.completionOrder_In in Hin.
Qed.

(** When line 244 is reached every entry of [flaggedContent] comes from the
    lookup of a queried word or of a chunk. *)
Lemma collectFlagged_Sound (index : Index) (words semantics : list jsstring)
  (originalContext : jsstring) (sched : Schedule) (m : FlaggedMap) :
  result (collectFlagged index words semantics originalContext sched) = inr m ->
  Sound index (queriedWords words ++ semantics) m.
Proof.
  unfold collectFlagged.
  destruct (wordAnalysis index words originalContext sched) as [err|m1] eqn:W;
    simpl; [discriminate|].
  apply semanticAnalysis_Sound.
  - intros u Hu. apply in_or_app. now right.
  - apply Sound_weaken with (units := queriedWords words).
    + intros u Hu. apply in_or_app. now left.
    + exact (wordAnalysis_Sound _ _ _ _ _ W).
Qed.

End LookupFacts.

(** ** [findHighestScore] and the verdict *)

Module VerdictFacts.

Import ProfanityDetectorAPI NumFacts Notions LookupFacts.

Lemma findHighestScore_fold (m : FlaggedMap) :
  findHighestScore m = fst (fold_left visit m (None, (-1)%float)).
Proof. reflexivity. Qed.

(** The scan either never replaced [highest], and then no score was greater
    than [maxScore]; or it ends on an entry that is greater than all before it
    and not less than any after it. *)
Lemma scan_spec (l : list (Key * FlaggedContent.t)) :
  forall (highest : option FlaggedResult.t) (maxScore : float),
    Num.isNaN maxScore = false ->
    (forall e, In e l -> Num.isNaN (scoreOf e) = false) ->
    (fold_left visit l (highest, maxScore) = (highest, maxScore) /\
     forall e, In e l -> Num.le (scoreOf e) maxScore = true)
    \/
    (exists before e after,
        l = before ++ e :: after /\
        fold_left visit l (highest, maxScore) = (Some (reported e), scoreOf e) /\
        Num.gt (scoreOf e) maxScore = true /\
        (forall x, In x before -> Num.gt (scoreOf e) (scoreOf x) = true) /\
        (forall x, In x after -> Num.le (scoreOf x) (scoreOf e) = true)).
Proof.
  induction l as [|a l IH]; intros highest maxScore Hmx Hl.
  - left. split; [reflexivity|intros e []].
  - assert (Ha : Num.isNaN (scoreOf a) = false) by (apply Hl; now left).
    assert (Hl' : forall e, In e l -> Num.isNaN (scoreOf e) = false)
      by (intros e He; apply Hl; now right).
    assert (Hv : visit (highest, maxScore) a
                 = if Num.gt (scoreOf a) maxScore
                   then (Some (reported a), scoreOf a)
                   else (highest, maxScore)) by reflexivity.
    cbn [fold_left]. rewrite Hv.
    destruct (Num.gt (scoreOf a) maxScore) eqn:G.
    + right.
      destruct (IH (Some (reported a)) (scoreOf a) Ha Hl')
        as [(E & Hle)|(before & e & after & -> & E & Ge & Hb & Haft)].
      * exists [], a, l.
        split; [reflexivity|]. split; [exact E|]. split; [exact G|].
        split; [intros x []|exact Hle].
      * exists (a :: before), e, after.
        split; [reflexivity|]. split; [exact E|].
        split; [exact (gt_trans _ _ _ Ge G)|].
        split; [|exact Haft].
        intros x [<-|Hx]; [exact Ge|exact (Hb x Hx)].
    + destruct (IH highest maxScore Hmx Hl')
        as [(E & Hle)|(before & e & after & -> & E & Ge & Hb & Haft)].
      * left. split; [exact E|].
        intros x [<-|Hx]; [exact (not_gt_le _ _ Ha Hmx G)|exact (Hle x Hx)].
      * right. exists (a :: before), e, after.
        split; [reflexivity|]. split; [exact E|]. split; [exact Ge|].
        split; [|exact Haft].
        intros x [<-|Hx]; [|exact (Hb x Hx)].
        exact (le_gt_trans _ _ _ (not_gt_le _ _ Ha Hmx G) Ge).
Qed.

Lemma scan_In (l : list (Key * FlaggedContent.t)) :
  forall st : option FlaggedResult.t * float,
    fst (fold_left visit l st) = fst st \/
    exists e, In e l /\ fst (fold_left visit l st) = Some (reported e).
Proof.
  induction l as [|a l IH]; intros st; cbn [fold_left]; [now left|].
  destruct (IH (visit st a)) as [E|(e & He & E)].
  - rewrite E. destruct st as [highest maxScore]. unfold visit.
    destruct (Num.gt _ maxScore); simpl; [|now left].
    right. exists a. split; [now left|reflexivity].
  - right. exists e. split; [now right|exact E].
Qed.

(** What [findHighestScore] returns is an entry of the map. *)
Lemma findHighestScore_In (m : FlaggedMap) (h : FlaggedResult.t) :
  findHighestScore m = Some h -> exists e, In e m /\ h = reported e.
Proof.
  rewrite findHighestScore_fold.
  destruct (scan_In m (None, (-1)%float)) as [E|(e & He & E)];
    rewrite E; simpl; [discriminate|].
  intros [= <-]. eauto.
Qed.

Lemma verdict_cases (m : FlaggedMap) :
  verdict m = clean \/ exists e, In e m /\ verdict m = flagged e.
Proof.
  unfold verdict. destruct (findHighestScore m) as [h|] eqn:F; [|now left].
  right. destruct (findHighestScore_In m h F) as (e & He & ->). eauto.
Qed.

(** On a map whose scores are all above the word threshold, the scan ends on
    the first of the entries with the greatest score. *)
Lemma findHighestScore_Sound (index : Index) (units : list jsstring)
  (m : FlaggedMap) :
  Sound index units m -> m <> [] ->
  exists before e after,
    m = before ++ e :: after /\
    findHighestScore m = Some (reported e) /\
    (forall x, In x before -> Num.gt (scoreOf e) (scoreOf x) = true) /\
    (forall x, In x after -> Num.le (scoreOf x) (scoreOf e) = true).
Proof.
  intros Hm Hne.
  assert (Above : forall e, In e m -> Num.gt (scoreOf e) (-1)%float = true).
  { intros e He. destruct (Hm e He) as (_ & G & _).
    apply (gt_trans _ _ _ G). reflexivity. }
  rewrite findHighestScore_fold.
  destruct (scan_spec m None (-1)%float eq_refl)
    as [(E & Hle)|(before & e & after & Eq & E & Ge & Hb & Haft)].
  - intros e He. apply (gt_not_NaN _ _ (Above e He)).
  - exfalso. destruct m as [|e m]; [congruence|].
    specialize (Above e (or_introl eq_refl)).
    rewrite (le_not_gt _ _ (Hle e (or_introl eq_refl))) in Above. discriminate.
  - exists before, e, after. rewrite E. auto.
Qed.

End VerdictFacts.

(** ** The writes of a run, in the order the lookups settle *)

Module HistoryFacts.

Import ProfanityDetectorAPI NumFacts SchedulerFacts Notions LookupFacts.

Lemma wordResume_write (index : Index) (originalContext word : jsstring)
  (vectors : list Vector.t) (m : FlaggedMap) :
  index word = Resolved vectors ->
  wordResume originalContext word vectors m
  = write index originalContext m (WordLookup word).
Proof.
  intros Hq. unfold write, records, wordResume. simpl. rewrite Hq.
  destruct vectors as [|vector rest]; [reflexivity|].
  destruct (Vector.score vector) as [score|]; [|reflexivity].
  destruct (Num.gt score CONFIG.WORD_THRESHOLD) eqn:G.
  - rewrite (word_threshold_truthy _ G). simpl.
    now destruct (TextProcessor.isAllowedInContext _ _).
  - now rewrite andb_false_r.
Qed.

Lemma chunkResume_write (index : Index) (originalContext chunk : jsstring)
  (vectors : list Vector.t) (m : FlaggedMap) :
  index chunk = Resolved vectors ->
  chunkResume chunk vectors m
  = write index originalContext m (ChunkLookup chunk).
Proof.
  intros Hq. unfold write, records, chunkResume. simpl. rewrite Hq.
  destruct vectors as [|vector rest]; [reflexivity|].
  destruct (Vector.score vector) as [score|]; [|reflexivity].
  destruct (Num.gt score CONFIG.SEMANTIC_THRESHOLD) eqn:G.
  - now rewrite (semantic_threshold_truthy _ G).
  - now rewrite andb_false_r.
Qed.

Lemma awaitAll_words_history (index : Index) (originalContext : jsstring)
  (settled : list jsstring) :
  forall m m',
    awaitAll index (wordResume originalContext) settled m = inr m' ->
    m' = fold_left (write index originalContext) (List.map WordLookup settled) m.
Proof.
  induction settled as [|u settled IH]; intros m m' E; simpl in E.
  - now injection E as <-.
  - destruct (index u) as [err|vectors] eqn:Hq; [discriminate|].
    simpl. rewrite <- (wordResume_write index originalContext u vectors m Hq).
    exact (IH _ _ E).
Qed.

Lemma awaitAll_chunks_history (index : Index) (originalContext : jsstring)
  (settled : list jsstring) :
  forall m m',
    awaitAll index chunkResume settled m = inr m' ->
    m' = fold_left (write index originalContext) (List.map ChunkLookup settled) m.
Proof.
  induction settled as [|u settled IH]; intros m m' E; simpl in E.
  - now injection E as <-.
  - destruct (index u) as [err|vectors] eqn:Hq; [discriminate|].
    simpl. rewrite <- (chunkResume_write index originalContext u vectors m Hq).
    exact (IH _ _ E).
Qed.

(** The map at line 244 is the writes of the settled lookups, one after the
    other, on the empty map. *)
Lemma collectFlagged_history (index : Index) (words semantics : list jsstring)
  (originalContext : jsstring) (sched : Schedule) (m : FlaggedMap) :
  result (collectFlagged index words semantics originalContext sched) = inr m ->
  m = fold_left (write index originalContext)
        (settledLookups words semantics sched) JsMap.empty.
Proof.
  unfold collectFlagged, settledLookups.
  destruct (wordAnalysis index words originalContext sched) as [err|m1] eqn:W;
    simpl; [discriminate|].
  unfold wordAnalysis in W.
  apply awaitAll_words_history in W. rewrite fold_left_app, <- W.
  unfold semanticAnalysis.
  destruct semantics as [|c semantics].
  - simpl. now intros [= <-].
  - cbn [List.length Nat.ltb Nat.leb]. apply awaitAll_chunks_history.
Qed.

(** Lookups that do not write under [label] leave its entry as it is. *)
Lemma writes_elsewhere (index : Index) (originalContext : jsstring)
  (label : Key) (after : list Lookup) :
  (forall q c, In q after -> records index originalContext q <> Some (label, c)) ->
  forall m,
    get label (fold_left (write index originalContext) after m) = get label m.
Proof.
  induction after as [|q after IH]; intros Hother m; simpl; [reflexivity|].
  rewrite IH by (intros q' c' Hin; apply Hother; now right).
  unfold write.
  destruct (records index originalContext q) as [[label' c']|] eqn:R;
    [|reflexivity].
  apply JsMapFacts.get_set_other. intros ->.
  exact (Hother q c' (or_introl eq_refl) R).
Qed.

End HistoryFacts.

(** ** The allow lists *)

Module AllowFacts.

Import ProfanityDetectorAPI SchedulerFacts Notions LookupFacts.

(** [isAllowedInContext] holds exactly when the label has an entry in
    [CONTEXT_SPECIFIC] and one of its contexts occurs in the message. *)
Lemma isAllowedInContext_spec (label : Key) (context : jsstring) :
  TextProcessor.isAllowedInContext label context = true <->
  exists contextSpecific allowedContext,
    ALLOWED_WORDS.CONTEXT_SPECIFIC_get label = Some contextSpecific /\
    In allowedContext contextSpecific /\
    occursIn allowedContext context.
Proof.
  unfold TextProcessor.isAllowedInContext, occursIn.
  destruct (ALLOWED_WORDS.CONTEXT_SPECIFIC_get label) as [l|].
  - rewrite existsb_exists. split.
    + intros (a & Ha & Hi). apply JsFacts.includes_spec in Hi. eauto.
    + intros (l' & a & [= <-] & Ha & Hi). exists a. split; [exact Ha|].
      now apply JsFacts.includes_spec.
  - split; [discriminate|]. intros (l' & a & E & _). discriminate.
Qed.

Lemma GENERAL_has_queried (words : list jsstring) (word : jsstring) :
  In word (queriedWords words) <->
  In word words /\ ALLOWED_WORDS.GENERAL_has word = false.
Proof.
  unfold queriedWords. rewrite filter_In, negb_true_iff. tauto.
Qed.

(** No label in the map after the word analysis is allowed in the context
    of the message. *)
Lemma wordAnalysis_not_allowed (index : Index) (words : list jsstring)
  (originalContext : jsstring) (sched : Schedule) (m : FlaggedMap) :
  wordAnalysis index words originalContext sched = inr m ->
  forall e, In e m ->
            TextProcessor.isAllowedInContext (fst e) originalContext = false.
Proof.
  unfold wordAnalysis.
  apply (awaitAll_invariant
           (fun m => forall e, In e m ->
              TextProcessor.isAllowedInContext (fst e) originalContext = false)).
  - intros unit vectors m0 _ _ Hm0.
    destruct (wordResume_cases originalContext unit vectors m0)
      as [(vector & rest & score & -> & Sc & G & Al & ->)| ->]; [|exact Hm0].
    intros [k v] Hin.
    destruct (JsMapFacts.In_set Key_eq_dec _ k _ v m0 Hin) as [[-> ->]|H];
      [exact Al|exact (Hm0 _ H)].
  - intros e [].
Qed.

(** The keys of the map stay while the lookups settle. *)
Lemma awaitAll_chunks_keep_keys (index : Index) (label : Key)
  (settled : list jsstring) (m m' : FlaggedMap) :
  In label (JsMap.keys m) ->
  awaitAll index chunkResume settled m = inr m' ->
  In label (JsMap.keys m').
Proof.
  apply (awaitAll_invariant (fun m0 => In label (JsMap.keys m0))).
  intros unit vectors m0 _ _ Hm0.
  destruct (chunkResume_cases unit vectors m0)
    as [(vector & rest & score & -> & Sc & G & ->)| ->]; [|exact Hm0].
  now apply JsMapFacts.set_keeps_keys.
Qed.

End AllowFacts.

(** ** Lower case: the code units [sanitizeText] leaves *)

Module SanitizeFacts.

Import Js JsFacts Notions.

Ltac to_arith :=
  unfold caseless, isWordChar, isUpper, isLower, isDigit, isSpace, between in *;
  repeat rewrite ?orb_true_iff, ?andb_true_iff, ?N.leb_le, ?N.eqb_eq in *.

Lemma isSpace_not_upper (c : codeunit) : isSpace c = true -> isUpper c = false.
Proof.
  intros H. destruct (isUpper c) eqn:U; [exfalso|reflexivity].
  to_arith. lia.
Qed.

Lemma word_not_upper_caseless (c : codeunit) :
  (isWordChar c || isSpace c) = true -> isUpper c = false -> caseless c = true.
Proof.
  intros H U. unfold caseless. unfold isWordChar in H. rewrite U in H.
  simpl in H. exact H.
Qed.

Lemma caseless_kept (c : codeunit) :
  caseless c = true -> (isWordChar c || isSpace c) = true.
Proof.
  unfold caseless, isWordChar. intros H.
  apply orb_true_iff in H. destruct H as [H|H]; [|rewrite H; apply orb_true_r].
  apply orb_true_iff in H. destruct H as [H|H]; [|rewrite H; now rewrite !orb_true_r].
  apply orb_true_iff in H. destruct H as [H|H]; rewrite H;
    now rewrite ?orb_true_r.
Qed.

Lemma caseless_not_upper (c : codeunit) : caseless c = true -> isUpper c = false.
Proof.
  intros H. destruct (isUpper c) eqn:U; [exfalso|reflexivity].
  to_arith. lia.
Qed.

Lemma asciiLower_no_upper (s : jsstring) (c : codeunit) :
  In c (Examples.asciiLower s) -> isUpper c = false.
Proof.
  unfold Examples.asciiLower. intros H. apply in_map_iff in H.
  destruct H as (c0 & <- & _).
  destruct (isUpper c0) eqn:U; [|exact U].
  destruct (isUpper (c0 + 32)%N) eqn:U'; [exfalso|reflexivity].
  to_arith. lia.
Qed.

Lemma asciiLower_fixed (s : jsstring) :
  (forall c, In c s -> caseless c = true) -> Examples.asciiLower s = s.
Proof.
  unfold Examples.asciiLower. intros H.
  induction s as [|a s IH]; simpl; [reflexivity|].
  rewrite (caseless_not_upper a) by (apply H; now left).
  f_equal. apply IH. intros c Hc. apply H. now right.
Qed.

End SanitizeFacts.

(** ** Semantic chunks *)

Module SemanticsFacts.

(** A text of at most one word has no semantic chunk: the splitter is not
    called. *)
Lemma splitIntoSemantics_few_words (splitter : jsstring -> list jsstring)
  (text : jsstring) :
  List.length (TextProcessor.splitIntoWords text) <= 1 ->
  TextProcessor.splitIntoSemantics splitter text = [].
Proof.
  intros H. unfold TextProcessor.splitIntoSemantics.
  now rewrite (proj2 (Nat.leb_le _ _) H).
Qed.

(** A text of two words or more has the chunks of the splitter, as they
    are. *)
Lemma splitIntoSemantics_many_words (splitter : jsstring -> list jsstring)
  (text : jsstring) :
  1 < List.length (TextProcessor.splitIntoWords text) ->
  TextProcessor.splitIntoSemantics splitter text = splitter text.
Proof.
  intros H. unfold TextProcessor.splitIntoSemantics.
  now rewrite (proj2 (Nat.leb_gt _ _) H).
Qed.

(** Dropping the empty pieces changes nothing in the pieces put together. *)
Lemma concat_nonempty (l : list jsstring) :
  List.concat (filter (fun piece => 0 <? List.length piece) l) = List.concat l.
Proof.
  induction l as [|p l IH]; simpl; [reflexivity|].
  destruct p; simpl; [exact IH|now rewrite IH].
Qed.

End SemanticsFacts.

(** ** The chunks of the splitter *)

Module SplitterFacts.

Import RecursiveCharacterTextSplitter SplitterNotions.

(** *** Occurrences in a list *)

(** An occurrence in [l1 ++ l2] is one in [l1] or one in [l2]. *)
Lemma occurrence_app (l1 l2 before after : jsstring) (c : Js.codeunit) :
  l1 ++ l2 = before ++ c :: after ->
  (exists rest, l1 = before ++ c :: rest /\ after = rest ++ l2)
  \/ (exists mid, before = l1 ++ mid /\ l2 = mid ++ c :: after).
Proof.
  revert before. induction l1 as [|x l1 IH]; intros before E.
  - right. exists before. split; [reflexivity|exact E].
  - destruct before as [|y before]; simpl in E; injection E as -> E.
    + left. exists l1. split; [reflexivity|now symmetry].
    + destruct (IH before E) as [(rest & -> & ->)|(mid & -> & ->)].
      * left. exists rest. split; reflexivity.
      * right. exists mid. split; reflexivity.
Qed.

(** An occurrence of something that [l] does not hold is past [l]. *)
Lemma occurrence_past (l m before after : jsstring) (c : Js.codeunit) :
  ~ In c l ->
  l ++ m = before ++ c :: after ->
  exists mid, before = l ++ mid /\ m = mid ++ c :: after.
Proof.
  intros Hc E. destruct (occurrence_app _ _ _ _ _ E) as [(rest & -> & _)|H].
  - exfalso. apply Hc. apply in_or_app. right. now left.
  - exact H.
Qed.

(** An occurrence of something that [r] does not hold is before [r]. *)
Lemma occurrence_before (m r before after : jsstring) (c : Js.codeunit) :
  ~ In c r ->
  m ++ r = before ++ c :: after ->
  exists rest, m = before ++ c :: rest /\ after = rest ++ r.
Proof.
  intros Hc E. destruct (occurrence_app _ _ _ _ _ E) as [H|(mid & -> & E')].
  - exact H.
  - exfalso. apply Hc. rewrite E'. apply in_or_app. right. now left.
Qed.

(** *** [trim] takes white space off the two ends *)

Lemma dropWhile_split (p : Js.codeunit -> bool) (s : jsstring) :
  exists l, s = l ++ Js.dropWhile p s /\ forall c, In c l -> p c = true.
Proof.
  induction s as [|a s (l & E & Hl)]; simpl.
  - exists []. split; [reflexivity|intros c []].
  - destruct (p a) eqn:Pa.
    + exists (a :: l). split; [simpl; now rewrite <- E|].
      intros c [<-|Hc]; [exact Pa|now apply Hl].
    + exists []. split; [reflexivity|intros c []].
Qed.

Lemma trim_split (s : jsstring) :
  exists l r,
    s = l ++ Js.trim s ++ r /\
    (forall c, In c l -> Js.isSpace c = true) /\
    (forall c, In c r -> Js.isSpace c = true).
Proof.
  destruct (dropWhile_split Js.isSpace s) as (l & El & Hl).
  destruct (dropWhile_split Js.isSpace (rev (Js.trimStart s))) as (r & Er & Hr).
  exists l, (rev r). split; [|split].
  - unfold Js.trim, Js.trimEnd. rewrite <- rev_app_distr, <- Er, rev_involutive.
    exact El.
  - exact Hl.
  - intros c Hc. apply Hr. now apply in_rev.
Qed.

(** *** Chunks that hold an occurrence *)

Lemma within_more (chunks chunks' : list jsstring) (before after : jsstring)
  (c : Js.codeunit) :
  (forall chunk, In chunk chunks -> In chunk chunks') ->
  within chunks before c after -> within chunks' before c after.
Proof.
  intros Hsub (chunk & left & mid & rest & right & Hin & E1 & E2 & E3).
  exists chunk, left, mid, rest, right. auto.
Qed.

Lemma within_app_l (chunks more : list jsstring) (before after : jsstring)
  (c : Js.codeunit) :
  within chunks before c after -> within (chunks ++ more) before c after.
Proof.
  apply within_more. intros chunk H. apply in_or_app. now left.
Qed.

Lemma within_app_r (chunks more : list jsstring) (before after : jsstring)
  (c : Js.codeunit) :
  within chunks before c after -> within (more ++ chunks) before c after.
Proof.
  apply within_more. intros chunk H. apply in_or_app. now right.
Qed.

(** The text may go on to the left and to the right. *)
Lemma within_context (chunks : list jsstring) (l before after r : jsstring)
  (c : Js.codeunit) :
  within chunks before c after -> within chunks (l ++ before) c (after ++ r).
Proof.
  intros (chunk & left & mid & rest & right & Hin & E1 & -> & ->).
  exists chunk, (l ++ left), mid, rest, (right ++ r).
  split; [exact Hin|split; [exact E1|]].
  split; now rewrite app_assoc.
Qed.

(** A piece that is a chunk as it is. *)
Lemma within_whole (before after : jsstring) (c : Js.codeunit) :
  within [before ++ c :: after] before c after.
Proof.
  exists (before ++ c :: after), [], before, after, [].
  split; [now left|split; [reflexivity|]].
  split; [reflexivity|now rewrite app_nil_r].
Qed.

(** *** [joinDocs] *)

(** What [joinDocs] makes of [currentDoc] holds every occurrence in it of a
    code unit that is not white space. *)
Lemma pushed_within (currentDoc : list jsstring) (before after : jsstring)
  (c : Js.codeunit) :
  Js.isSpace c = false ->
  List.concat currentDoc = before ++ c :: after ->
  within (pushed currentDoc) before c after.
Proof.
  intros Hc E.
  destruct (trim_split (List.concat currentDoc)) as (l & r & Et & Hl & Hr).
  assert (Nl : ~ In c l) by (intros H; apply Hl in H; congruence).
  assert (Nr : ~ In c r) by (intros H; apply Hr in H; congruence).
  rewrite E in Et at 1. symmetry in Et.
  destruct (occurrence_past _ _ _ _ _ Nl Et) as (mid & -> & Em).
  destruct (occurrence_before _ _ _ _ _ Nr Em) as (rest & Etrim & ->).
  unfold pushed, joinDocs. rewrite Etrim.
  destruct (mid ++ c :: rest) as [|x chunk] eqn:Echunk.
  - destruct mid; discriminate.
  - exists (x :: chunk), l, mid, rest, r.
    split; [now left|split; [now symmetry|split; reflexivity]].
Qed.

(** *** [mergeSplits] *)

(** The inner loop takes pieces off the head of [currentDoc]. *)
Lemma shiftWhile_suffix (len : nat) (currentDoc : list jsstring) :
  forall total,
    exists shifted, currentDoc = shifted ++ fst (shiftWhile len currentDoc total).
Proof.
  induction currentDoc as [|first rest IH]; intros total; simpl.
  - now exists [].
  - destruct ((chunkOverlap <? total)
              || ((chunkSize <? total + len) && (0 <? total))).
    + destruct (IH (total - List.length first)) as (shifted & E).
      exists (first :: shifted). simpl. now rewrite <- E.
    + now exists [].
Qed.

(** [total] stays the number of code units of [currentDoc], and the inner
    loop has ended when [currentDoc] is empty. *)
Lemma shiftWhile_total (len : nat) (currentDoc : list jsstring) :
  forall total,
    total = List.length (List.concat currentDoc) ->
    snd (shiftWhile len currentDoc total)
    = List.length (List.concat (fst (shiftWhile len currentDoc total)))
    /\ (fst (shiftWhile len currentDoc total) = [] ->
        (chunkOverlap <? snd (shiftWhile len currentDoc total))
        || ((chunkSize <? snd (shiftWhile len currentDoc total) + len)
            && (0 <? snd (shiftWhile len currentDoc total))) = false).
Proof.
  induction currentDoc as [|first rest IH]; intros total E; simpl.
  - subst total. simpl. split; [reflexivity|]. intros _.
    now rewrite andb_false_r.
  - destruct ((chunkOverlap <? total)
              || ((chunkSize <? total + len) && (0 <? total))) eqn:C.
    + apply IH. subst total. simpl. rewrite length_app. lia.
    + simpl. split; [exact E|discriminate].
Qed.

(** Every occurrence, in the pieces at hand and in those to come, of a code
    unit that is not white space lies within a chunk of the loop. *)
Lemma mergeLoop_within (splits : list jsstring) (c : Js.codeunit) :
  Js.isSpace c = false ->
  forall currentDoc total before after,
    List.concat currentDoc ++ List.concat splits = before ++ c :: after ->
    within (mergeLoop currentDoc total splits) before c after.
Proof.
  intros Hc. induction splits as [|d rest IH];
    intros currentDoc total before after E.
  - simpl in E. rewrite app_nil_r in E. now apply pushed_within.
  - assert (Later : forall total',
               within (mergeLoop (currentDoc ++ [d]) total' rest)
                      before c after).
    { intros total'. apply IH.
      rewrite concat_app. simpl. rewrite app_nil_r, <- app_assoc. exact E. }
    cbn [mergeLoop]. destruct (chunkSize <? total + List.length d).
    + destruct currentDoc as [|first more]; [exact (Later _)|].
      destruct (shiftWhile_suffix (List.length d) (first :: more) total)
        as (shifted & Es).
      destruct (shiftWhile (List.length d) (first :: more) total)
        as [kept total'].
      simpl fst in Es.
      destruct (occurrence_app _ _ _ _ _ E) as [(tl & E1 & ->)|(mid & -> & E2)].
      * apply within_app_l.
        rewrite <- (app_nil_l before).
        apply within_context. now apply pushed_within.
      * apply within_app_r.
        rewrite Es, concat_app, <- app_assoc.
        rewrite <- (app_nil_r after).
        apply within_context. apply IH.
        rewrite concat_app. simpl List.concat at 2.
        rewrite app_nil_r, <- !app_assoc. f_equal. exact E2.
    + exact (Later _).
Qed.

Lemma merged_within (goodSplits : list jsstring) (before after : jsstring)
  (c : Js.codeunit) :
  Js.isSpace c = false ->
  List.concat goodSplits = before ++ c :: after ->
  within (merged goodSplits) before c after.
Proof.
  intros Hc E. destruct goodSplits as [|s goodSplits].
  - destruct before; discriminate.
  - apply mergeLoop_within; [exact Hc|]. exact E.
Qed.

(** *** [_splitText] *)

Lemma splitLoop_within (further : option (jsstring -> list jsstring))
  (c : Js.codeunit) :
  Js.isSpace c = false ->
  (forall splitText before after,
      further = Some splitText ->
      within (splitText (before ++ c :: after)) before c after) ->
  forall splits goodSplits before after,
    List.concat goodSplits ++ List.concat splits = before ++ c :: after ->
    within (splitLoop further goodSplits splits) before c after.
Proof.
  intros Hc Hf. induction splits as [|s rest IH];
    intros goodSplits before after E.
  - simpl in E. rewrite app_nil_r in E. now apply merged_within.
  - cbn [splitLoop]. destruct (List.length s <? chunkSize).
    + apply IH. rewrite concat_app. simpl. rewrite app_nil_r, <- app_assoc.
      exact E.
    + simpl List.concat in E.
      destruct (occurrence_app _ _ _ _ _ E) as [(tl & E1 & ->)|(mid & -> & E2)].
      * apply within_app_l. rewrite <- (app_nil_l before).
        apply within_context. now apply merged_within.
      * apply within_app_r.
        destruct (occurrence_app _ _ _ _ _ E2)
          as [(tl & E3 & ->)|(mid' & -> & E4)].
        -- apply within_app_l. apply within_context. rewrite E3.
           destruct further as [splitText|].
           ++ now apply Hf.
           ++ apply within_whole.
        -- apply within_app_r. rewrite app_assoc.
           rewrite <- (app_nil_r after). apply within_context.
           apply IH. exact E4.
Qed.

Lemma splitBefore_concat (separator : Js.codeunit) (s : jsstring) :
  forall acc, List.concat (splitBefore separator acc s) = rev acc ++ s.
Proof.
  induction s as [|c r IH]; intros acc; simpl.
  - reflexivity.
  - destruct (c =? separator)%N; simpl; rewrite IH; simpl.
    + reflexivity.
    + now rewrite <- app_assoc.
Qed.

(** The pieces put together are the text. *)
Lemma splitOnSeparator_concat (text : jsstring)
  (separator : option Js.codeunit) :
  List.concat (splitOnSeparator text separator) = text.
Proof.
  unfold splitOnSeparator. rewrite SemanticsFacts.concat_nonempty.
  destruct separator as [sep|].
  - now rewrite splitBefore_concat.
  - induction text as [|c text IH]; simpl; [reflexivity|now rewrite IH].
Qed.

Lemma _splitTextOnNothing_within (before after : jsstring) (c : Js.codeunit) :
  Js.isSpace c = false ->
  within (_splitTextOnNothing (before ++ c :: after)) before c after.
Proof.
  intros Hc. unfold _splitTextOnNothing.
  apply splitLoop_within; [exact Hc|discriminate|].
  simpl. apply splitOnSeparator_concat.
Qed.

(** Every occurrence in the text of a code unit that is not white space lies
    within a chunk. *)
Lemma createDocuments_within (before after : jsstring) (c : Js.codeunit) :
  Js.isSpace c = false ->
  within (createDocuments (before ++ c :: after)) before c after.
Proof.
  intros Hc. unfold createDocuments, splitText, _splitText.
  destruct (Js.includes (before ++ c :: after) [space]).
  - apply splitLoop_within; [exact Hc| |].
    + intros f b a [= <-]. now apply _splitTextOnNothing_within.
    + simpl. apply splitOnSeparator_concat.
  - apply splitLoop_within; [exact Hc|discriminate|].
    simpl. apply splitOnSeparator_concat.
Qed.

End SplitterFacts.


(** ** Validation *)

Module ValidationFacts.

Import ProfanityDetectorAPI.

(** What [validateRequest] rejects, in the terms of its code. *)
Lemma validateRequest_spec (body : RequestBody) :
  validateRequest body <> None <->
  message body = [] \/
  35 < List.length (Js.splitOnSpaces (message body)) \/
  1000 < Js.length (message body).
Proof.
  unfold validateRequest, Js.length, CONFIG.MAX_WORDS, CONFIG.MAX_CHARS.
  destruct (message body) as [|c r] eqn:E.
  - simpl. split; [intros _; now left|discriminate].
  - cbn [List.length Nat.eqb].
    destruct (35 <? List.length (Js.splitOnSpaces (c :: r))) eqn:W;
      destruct (1000 <? S (List.length r)) eqn:L; simpl;
      rewrite ?Nat.ltb_lt, ?Nat.ltb_ge in *;
      (split; [intros H|intros [H|[H|H]]]);
      try discriminate; try congruence; try lia; auto.
Qed.

End ValidationFacts.

(** ** [seed]: the batches *)

Module SeedFacts.

Import Seed MoreNotions.

Lemma format_items (i from : nat) (chunk : list Row) :
  format i from chunk = itemsFrom (i + from) chunk.
Proof.
  revert from. induction chunk as [|row rest IH]; intros from; simpl.
  - reflexivity.
  - rewrite IH. unfold itemOf. now rewrite Nat.add_succ_r.
Qed.

Lemma itemsFrom_app (k : nat) (l1 l2 : list Row) :
  itemsFrom k (l1 ++ l2) = itemsFrom k l1 ++ itemsFrom (k + List.length l1) l2.
Proof.
  revert k. induction l1 as [|row l1 IH]; intros k; simpl.
  - now rewrite Nat.add_0_r.
  - rewrite IH. now rewrite Nat.add_succ_r.
Qed.

Lemma itemsFrom_length (k : nat) (rows : list Row) :
  List.length (itemsFrom k rows) = List.length rows.
Proof.
  revert k. induction rows as [|row rest IH]; intros k; simpl; auto.
Qed.

(** The loop from [i]: with enough fuel it ends; the batches it sent, put
    together, are the first items of the rows from [i] on, all of them when
    it returned; each batch holds 1 to 30 items; every batch but the last was
    accepted, and when it threw the last one was refused. *)
Lemma seedLoop_spec (upsert : Upsert) (data : list Row) :
  forall fuel i,
    0 < fuel -> List.length data < i + fuel ->
    exists run,
      seedLoop fuel upsert data i = Some run /\
      (exists rest,
          itemsFrom i (skipn i data) = List.concat (upserts run) ++ rest /\
          (outcome run = inr tt -> rest = [])) /\
      Forall (fun batch => 1 <= List.length batch <= STEP) (upserts run) /\
      (forall before batch after,
          upserts run = before ++ batch :: after ->
          (after <> [] -> upsert batch = None) /\
          (after = [] ->
           match outcome run with
           | inl err => upsert batch = Some err
           | inr _ => upsert batch = None
           end)) /\
      (upserts run = [] -> outcome run = inr tt).
Proof.
  induction fuel as [|fuel IH]; intros i Hpos Hfuel; [lia|].
  cbn [seedLoop].
  destruct (i <? List.length data) eqn:Hi.
  - apply Nat.ltb_lt in Hi.
    set (chunk := slice data i (i + STEP)).
    assert (Hchunk : chunk = firstn STEP (skipn i data)).
    { unfold chunk, slice. f_equal. lia. }
    assert (Hlen : 1 <= List.length chunk <= STEP).
    { rewrite Hchunk, length_firstn, length_skipn. unfold STEP. lia. }
    assert (Hsplit : itemsFrom i (skipn i data)
                     = format i 0 chunk
                       ++ itemsFrom (i + STEP) (skipn (i + STEP) data)).
    { rewrite format_items, Nat.add_0_r.
      rewrite <- (firstn_skipn STEP (skipn i data)) at 1.
      rewrite itemsFrom_app, <- Hchunk.
      rewrite skipn_skipn, (Nat.add_comm STEP i).
      destruct (Nat.le_gt_cases STEP (List.length (skipn i data))) as [L|L].
      - rewrite Hchunk, length_firstn, Nat.min_l by exact L. reflexivity.
      - rewrite (skipn_all2 (n := i + STEP)) by (rewrite length_skipn in L; lia).
        reflexivity. }
    assert (Hflen : 1 <= List.length (format i 0 chunk) <= STEP).
    { now rewrite format_items, itemsFrom_length. }
    destruct (upsert (format i 0 chunk)) as [err|] eqn:Hu.
    + eexists. split; [reflexivity|]. cbn [upserts outcome].
      split; [|split; [|split]].
      * exists (itemsFrom (i + STEP) (skipn (i + STEP) data)).
        split; [|discriminate]. simpl. now rewrite app_nil_r.
      * constructor; [exact Hflen|constructor].
      * intros before batch after E.
        destruct before as [|b before]; [|destruct before; discriminate].
        injection E as <- <-. split; [congruence|intros _; exact Hu].
      * discriminate.
    + destruct (IH (i + STEP))
        as (run & Hrun & (rest & Hrest & Hdone) & Hsizes & Hacc & Hempty).
      { lia. }
      { unfold STEP. lia. }
      rewrite Hrun. eexists. split; [reflexivity|]. cbn [upserts outcome].
      split; [|split; [|split]].
      * exists rest. split; [|exact Hdone].
        simpl. now rewrite Hsplit, Hrest, app_assoc.
      * constructor; [exact Hflen|exact Hsizes].
      * intros before batch after E.
        destruct before as [|b before].
        -- injection E as <- E. split; [intros _; exact Hu|].
           intros ->.
           rewrite (Hempty E). exact Hu.
        -- injection E as <- E. exact (Hacc before batch after E).
      * discriminate.
  - apply Nat.ltb_ge in Hi. eexists. split; [reflexivity|]. cbn [upserts outcome].
    split; [|split; [|split]].
    + exists []. split; [|reflexivity].
      now rewrite skipn_all2 by exact Hi.
    + constructor.
    + intros before batch after E. destruct before; discriminate.
    + reflexivity.
Qed.

(** A batch that is followed by another holds [STEP] items. *)
Lemma seedLoop_full_batches (upsert : Upsert) (data : list Row) :
  forall fuel i run,
    seedLoop fuel upsert data i = Some run ->
    forall before batch after,
      upserts run = before ++ batch :: after ->
      after <> [] ->
      List.length batch = STEP.
Proof.
  induction fuel as [|fuel IH]; intros i run E; [discriminate|].
  cbn [seedLoop] in E.
  destruct (i <? List.length data) eqn:Hi;
    [|injection E as <-; intros [|? ?] ? ? E; discriminate].
  destruct (upsert (format i 0 (slice data i (i + STEP)))) as [err|].
  - injection E as <-. intros before batch after E Hne. cbn [upserts] in E.
    destruct before as [|b before]; [|destruct before; discriminate].
    injection E as _ <-. congruence.
  - destruct (seedLoop fuel upsert data (i + STEP)) as [run'|] eqn:E';
      [|discriminate].
    injection E as <-. intros before batch after E Hne. cbn [upserts] in E.
    destruct before as [|b before].
    + injection E as <- E.
      assert (Hnext : i + STEP < List.length data).
      { destruct fuel as [|fuel']; [discriminate|]. cbn [seedLoop] in E'.
        destruct (i + STEP <? List.length data) eqn:Hn;
          [now apply Nat.ltb_lt in Hn|].
        injection E' as <-. cbn [upserts] in E. congruence. }
      rewrite format_items, itemsFrom_length. unfold slice.
      rewrite length_firstn, length_skipn. unfold STEP in *. lia.
    + injection E as _ E. exact (IH _ _ E' before batch after E Hne).
Qed.

End SeedFacts.

(** ** The words of a text *)

Module WordsFacts.

Import Js JsFacts.

(** The pieces of [split], put together, are the text without its white
    space. *)
Lemma splitAux_concat (s : jsstring) :
  forall inGap acc,
    (inGap = true -> acc = []) ->
    List.concat (splitAux inGap acc s)
    = rev acc ++ filter (fun c => negb (isSpace c)) s.
Proof.
  induction s as [|c r IH]; intros inGap acc Hgap; simpl.
  - reflexivity.
  - destruct (isSpace c) eqn:Sp; simpl.
    + destruct inGap.
      * rewrite (Hgap eq_refl). now rewrite IH.
      * simpl. now rewrite IH.
    + rewrite IH by discriminate. simpl. now rewrite <- app_assoc.
Qed.

(** No piece of [split] holds white space. *)
Lemma splitAux_no_space (s : jsstring) :
  forall inGap acc,
    (forall c, In c acc -> isSpace c = false) ->
    Forall (fun piece => forall c, In c piece -> isSpace c = false)
           (splitAux inGap acc s).
Proof.
  induction s as [|c r IH]; intros inGap acc Hacc; simpl.
  - constructor; [|constructor]. intros x Hx. apply Hacc. now apply in_rev.
  - destruct (isSpace c) eqn:Sp.
    + assert (R : Forall (fun piece => forall c, In c piece -> isSpace c = false)
                         (splitAux true [] r))
        by (apply IH; intros x []).
      destruct inGap; [exact R|].
      constructor; [|exact R]. intros x Hx. apply Hacc. now apply in_rev.
    + apply IH. intros x [<-|Hx]; [exact Sp|exact (Hacc x Hx)].
Qed.

(** A text with no white space is one piece. *)
Lemma splitAux_one_piece (s : jsstring) :
  forall acc,
    (forall c, In c s -> isSpace c = false) ->
    splitAux false acc s = [rev acc ++ s].
Proof.
  induction s as [|c r IH]; intros acc Hs; simpl.
  - now rewrite app_nil_r.
  - rewrite (Hs c) by now left.
    rewrite IH by (intros x Hx; apply Hs; now right).
    simpl. now rewrite <- app_assoc.
Qed.

Lemma words_concat (text : jsstring) :
  List.concat (TextProcessor.splitIntoWords text)
  = filter (fun c => negb (isSpace c)) text.
Proof.
  unfold TextProcessor.splitIntoWords, splitOnSpaces, Js.length.
  rewrite SemanticsFacts.concat_nonempty.
  now rewrite splitAux_concat by discriminate.
Qed.

Lemma words_tokens (text : jsstring) :
  Forall (fun word => word <> [] /\ forall c, In c word -> isSpace c = false)
         (TextProcessor.splitIntoWords text).
Proof.
  unfold TextProcessor.splitIntoWords, splitOnSpaces.
  apply Forall_forall. intros word Hw. apply filter_In in Hw.
  destruct Hw as (Hin & Hlen). split.
  - intros ->. discriminate.
  - pose proof (splitAux_no_space text false [] (fun c (H : In c []) =>
                                                   match H with end)) as F.
    rewrite Forall_forall in F. exact (F word Hin).
Qed.

(** A code unit of a word is a code unit of the text. *)
Lemma words_In (text word : jsstring) (c : codeunit) :
  In word (TextProcessor.splitIntoWords text) -> In c word -> In c text.
Proof.
  intros Hw Hc.
  assert (H : In c (List.concat (TextProcessor.splitIntoWords text)))
    by (apply in_concat; eauto).
  rewrite words_concat in H. now apply filter_In in H.
Qed.

End WordsFacts.

(** ** The count of [validateRequest] *)

Module CountFacts.

Import Js JsFacts MoreNotions.

Lemma pieces_words_empties (pieces : list jsstring) :
  List.length pieces
  = List.length (filter (fun piece => 0 <? List.length piece) pieces)
    + empties pieces.
Proof.
  unfold empties. induction pieces as [|p l IH]; simpl; [reflexivity|].
  destruct (0 <? List.length p); simpl; lia.
Qed.

Lemma last_default (r : jsstring) (d d' : codeunit) :
  r <> [] -> List.last r d = List.last r d'.
Proof.
  induction r as [|c r IH]; intros H; [congruence|].
  destruct r as [|c' r]; [reflexivity|].
  change (List.last (c' :: r) d = List.last (c' :: r) d').
  apply IH. discriminate.
Qed.

Lemma last_cons (c : codeunit) (r : jsstring) (d : codeunit) :
  List.last (c :: r) d = List.last r c.
Proof.
  revert c. induction r as [|c' r IH]; intros c; [reflexivity|].
  change (List.last (c' :: r) d = List.last (c' :: r) c).
  apply last_default. discriminate.
Qed.

Lemma empties_rev_acc (acc : jsstring) (l : list jsstring) :
  acc <> [] -> empties (rev acc :: l) = empties l.
Proof.
  intros H. unfold empties. simpl.
  destruct (rev acc) eqn:E; [|reflexivity].
  apply (f_equal (@rev _)) in E. rewrite rev_involutive in E. contradiction.
Qed.

(** The empty pieces of [split]: one when the text ends in white space (or,
    within a separator, when it ends there). *)
Lemma splitAux_empties (s : jsstring) :
  empties (splitAux true [] s) = Nat.b2n (isSpace (List.last s 32%N))
  /\ forall acc, acc <> [] ->
                 empties (splitAux false acc s)
                 = Nat.b2n (isSpace (List.last s 0%N)).
Proof.
  induction s as [|c r [IHa IHb]]; split.
  - reflexivity.
  - intros acc H. cbn [splitAux].
    etransitivity; [apply (empties_rev_acc acc [] H)|reflexivity].
  - cbn [splitAux]. rewrite last_cons. destruct (isSpace c) eqn:Sp.
    + rewrite IHa. destruct r as [|c' r]; [simpl; now rewrite Sp|].
      now rewrite (last_default (c' :: r) 32%N c).
    + rewrite IHb by discriminate.
      destruct r as [|c' r]; [simpl; now rewrite Sp|].
      now rewrite (last_default (c' :: r) 0%N c).
  - intros acc H. cbn [splitAux]. rewrite last_cons. destruct (isSpace c) eqn:Sp.
    + etransitivity; [apply (empties_rev_acc acc _ H)|]. rewrite IHa.
      destruct r as [|c' r]; [simpl; now rewrite Sp|].
      now rewrite (last_default (c' :: r) 32%N c).
    + rewrite IHb by discriminate.
      destruct r as [|c' r]; [simpl; now rewrite Sp|].
      now rewrite (last_default (c' :: r) 0%N c).
Qed.

(** [split] gives one piece per word, and one more for white space at the
    start and for white space at the end of the message. *)
Lemma pieces_count (m : jsstring) :
  m <> [] ->
  List.length (splitOnSpaces m)
  = List.length (TextProcessor.splitIntoWords m)
    + Nat.b2n (isSpace (List.hd 0%N m))
    + Nat.b2n (isSpace (List.last m 0%N)).
Proof.
  intros Hne. destruct m as [|c r]; [congruence|].
  unfold TextProcessor.splitIntoWords, Js.length.
  rewrite (pieces_words_empties (splitOnSpaces (c :: r))).
  rewrite <- Nat.add_assoc. f_equal.
  unfold splitOnSpaces. cbn [splitAux List.hd]. rewrite last_cons.
  destruct (splitAux_empties r) as [Ha Hb].
  destruct (isSpace c) eqn:Sp.
  - transitivity (S (empties (splitAux true [] r))); [reflexivity|].
    cbn [Nat.b2n Nat.add]. f_equal.
    etransitivity; [apply Ha|].
    destruct r as [|c' r]; [simpl; now rewrite Sp|].
    now rewrite (last_default (c' :: r) 32%N c).
  - etransitivity; [apply Hb; discriminate|].
    destruct r as [|c' r]; [simpl; now rewrite Sp|].
    now rewrite (last_default (c' :: r) 0%N c).
Qed.

End CountFacts.

(** ** What [sanitizeText] leaves *)

Module CleanFacts.

Import Js JsFacts Notions.

Lemma dropWhile_all (p : codeunit -> bool) (s : jsstring) :
  (forall c, In c s -> p c = true) -> dropWhile p s = [].
Proof.
  induction s as [|a s IH]; intros H; simpl; [reflexivity|].
  rewrite (H a) by now left. apply IH. intros c Hc. apply H. now right.
Qed.

Lemma trim_all_space (s : jsstring) :
  (forall c, In c s -> isSpace c = true) -> trim s = [].
Proof.
  intros H. unfold trim, trimStart. now rewrite (dropWhile_all _ _ H).
Qed.

Lemma word_not_space (c : codeunit) : isWordChar c = true -> isSpace c = false.
Proof.
  intros H. destruct (isSpace c) eqn:Sp; [exfalso|reflexivity].
  SanitizeFacts.to_arith. lia.
Qed.

(** [sanitizeText] returns the empty string exactly when the lower-cased
    text holds no code unit of [\w]. *)
Lemma sanitizeText_nil_iff (toLowerCase : jsstring -> jsstring) (x : jsstring) :
  TextProcessor.sanitizeText toLowerCase x = [] <->
  forall c, In c (toLowerCase x) -> isWordChar c = false.
Proof.
  unfold TextProcessor.sanitizeText, removeNonWordNonSpace. split.
  - intros H c Hc. destruct (isWordChar c) eqn:W; [exfalso|reflexivity].
    pose proof (SplitFacts.trim_nil_all_space _ H c) as Sp.
    rewrite (word_not_space c W) in Sp.
    assert (F : false = true); [|discriminate].
    apply Sp. apply filter_In. split; [exact Hc|]. now rewrite W.
  - intros H. apply trim_all_space. intros c Hc.
    apply filter_In in Hc. destruct Hc as (Hin & Hk).
    now rewrite (H c Hin) in Hk.
Qed.

(** A trimmed string that is not empty starts and ends with no white
    space. *)
Lemma trimmed_ends (y : jsstring) :
  trim y = y -> y <> [] ->
  isSpace (List.hd 0%N y) = false /\ isSpace (List.last y 0%N) = false.
Proof.
  intros Ht Hne.
  destruct (SplitFacts.trim_fixed_ends y Ht Hne) as ((c & r & -> & Hc) & Hend).
  split; [exact Hc|]. unfold endsNonSpace in Hend.
  now rewrite (CountFacts.last_default (c :: r) 0%N 32%N) by discriminate.
Qed.

Lemma caseless_word_or_space (c : codeunit) :
  caseless c = true ->
  (isLower c || isDigit c || (c =? 95)%N) = true \/ isSpace c = true.
Proof.
  unfold caseless. intros H. apply orb_true_iff in H. tauto.
Qed.

End CleanFacts.

(** ** [findHighestScore] on any map *)

Module ScanFacts.

Import ProfanityDetectorAPI Num NumFacts Notions VerdictFacts.
Local Open Scope float_scope.

Lemma SFcompare_trans_lt_eq (a b c : spec_float) :
  SFcompare a b = Some Lt -> SFcompare b c = Some Eq -> SFcompare a c = Some Lt.
Proof.
  destruct a as [sa|sa| |sa ma ea], b as [sb|sb| |sb mb eb],
           c as [sc|sc| |sc mc ec];
    try destruct sa; try destruct sb; try destruct sc; by_cases_on_floats.
Qed.

Lemma gt_le_trans (x y z : float) :
  gt y x = true -> le y z = true -> gt z x = true.
Proof.
  unfold le. rewrite leb_spec. unfold SFleb. rewrite !gt_spec.
  intros Hxy Hyz.
  destruct (SFcompare (Prim2SF y) (Prim2SF z)) as [[ | | ]|] eqn:C;
    try discriminate.
  - exact (SFcompare_trans_lt_eq _ _ _ Hxy C).
  - exact (SFcompare_trans_lt _ _ _ Hxy C).
Qed.

(** The scan either never replaced [highest], and then no score was greater
    than [maxScore]; or it ends on an entry [e] that no entry exceeds and
    that no entry before it equals or exceeds. *)
Lemma scan_any (l : list (Key * FlaggedContent.t)) :
  forall (highest : option FlaggedResult.t) (maxScore : float),
    (fold_left visit l (highest, maxScore) = (highest, maxScore) /\
     forall x, In x l -> gt (scoreOf x) maxScore = false)
    \/
    (exists before e after,
        l = before ++ e :: after /\
        fold_left visit l (highest, maxScore) = (Some (reported e), scoreOf e) /\
        gt (scoreOf e) maxScore = true /\
        (forall x, In x before ->
                   gt (scoreOf x) (scoreOf e) = false /\
                   le (scoreOf e) (scoreOf x) = false) /\
        (forall x, In x after -> gt (scoreOf x) (scoreOf e) = false)).
Proof.
  induction l as [|a l IH]; intros highest maxScore.
  - left. split; [reflexivity|intros x []].
  - assert (Hv : visit (highest, maxScore) a
                 = if gt (scoreOf a) maxScore
                   then (Some (reported a), scoreOf a)
                   else (highest, maxScore)) by reflexivity.
    cbn [fold_left]. rewrite Hv.
    destruct (gt (scoreOf a) maxScore) eqn:G.
    + right.
      destruct (IH (Some (reported a)) (scoreOf a))
        as [(E & Hno)|(before & e & after & -> & E & Ge & Hb & Haft)].
      * exists [], a, l.
        split; [reflexivity|]. split; [exact E|]. split; [exact G|].
        split; [intros x []|exact Hno].
      * exists (a :: before), e, after.
        split; [reflexivity|]. split; [exact E|].
        split; [exact (gt_trans _ _ _ Ge G)|].
        split; [|exact Haft].
        intros x [<-|Hx]; [|exact (Hb x Hx)].
        split; [exact (gt_asym _ _ Ge)|].
        destruct (le (scoreOf e) (scoreOf a)) eqn:L; [|reflexivity].
        rewrite (le_not_gt _ _ L) in Ge. discriminate.
    + destruct (IH highest maxScore)
        as [(E & Hno)|(before & e & after & -> & E & Ge & Hb & Haft)].
      * left. split; [exact E|].
        intros x [<-|Hx]; [exact G|exact (Hno x Hx)].
      * right. exists (a :: before), e, after.
        split; [reflexivity|]. split; [exact E|]. split; [exact Ge|].
        split; [|exact Haft].
        intros x [<-|Hx]; [|exact (Hb x Hx)].
        split.
        -- destruct (gt (scoreOf a) (scoreOf e)) eqn:Gae; [|reflexivity].
           rewrite (gt_trans _ _ _ Gae Ge) in G. discriminate.
        -- destruct (le (scoreOf e) (scoreOf a)) eqn:L; [|reflexivity].
           rewrite (gt_le_trans _ _ _ Ge L) in G. discriminate.
Qed.

End ScanFacts.

(** ** The run of [analyzeContent] as a whole *)

Module RunFacts.

Import ProfanityDetectorAPI NumFacts SchedulerFacts Notions MoreNotions
  LookupFacts VerdictFacts HistoryFacts.

(** The word analysis throws exactly when the lookup of a queried word is
    rejected. *)
Lemma wordAnalysis_throws_iff (index : Index) (words : list jsstring)
  (originalContext : jsstring) (sched : Schedule) :
  (exists err, wordAnalysis index words originalContext sched = inl err) <->
  (exists word err, In word (queriedWords words) /\ index word = Rejected err).
Proof.
  unfold wordAnalysis. rewrite awaitAll_throws_iff. split;
    intros (u & err & Hin & Hr); exists u, err; split; try exact Hr.
  - exact (proj1 (completionOrder_In _ _ _) Hin).
  - exact (proj2 (completionOrder_In _ _ _) Hin).
Qed.

Lemma semanticAnalysis_throws_iff (index : Index) (semantics : list jsstring)
  (sched : Schedule) (m : FlaggedMap) :
  (exists err, semanticAnalysis index semantics sched m = inl err) <->
  (exists chunk err, In chunk semantics /\ index chunk = Rejected err).
Proof.
  unfold semanticAnalysis. destruct semantics as [|c semantics].
  - simpl. split; [intros (err & E); discriminate|intros (u & err & [] & _)].
  - cbn [List.length Nat.ltb Nat.leb]. rewrite awaitAll_throws_iff. split;
      intros (u & err & Hin & Hr); exists u, err; split; try exact Hr.
    + exact (proj1 (completionOrder_In _ _ _) Hin).
    + exact (proj2 (completionOrder_In _ _ _) Hin).
Qed.

(** [analyzeContent] throws exactly when one of the queries it sent is
    rejected: the query of a word, or, when no query of a word is, the query
    of a chunk. *)
Lemma analyzeContent_throws_iff (index : Index) (words semantics : list jsstring)
  (originalContext : jsstring) (sched : Schedule) :
  (exists err,
      result (analyzeContent index words semantics originalContext sched)
      = inl err) <->
  (exists word err, In word (queriedWords words) /\ index word = Rejected err)
  \/ (exists chunk err, In chunk semantics /\ index chunk = Rejected err).
Proof.
  unfold analyzeContent, collectFlagged. simpl.
  pose proof (wordAnalysis_throws_iff index words originalContext sched) as W.
  destruct (wordAnalysis index words originalContext sched) as [err|m1]; simpl.
  - split; [intros _; left; apply W; eauto|intros _; eauto].
  - pose proof (semanticAnalysis_throws_iff index semantics sched m1) as S.
    destruct (semanticAnalysis index semantics sched m1) as [err|m2].
    + split; [intros _; right; apply S; eauto|intros _; eauto].
    + split; [intros (err & E); discriminate|].
      intros [H|H]; [apply W in H|apply S in H];
        destruct H as (err & E); discriminate.
Qed.

(** The queries [analyzeContent] sends: those of the words, and those of the
    chunks unless the word analysis threw. *)
Lemma analyzeContent_queries (index : Index) (words semantics : list jsstring)
  (originalContext : jsstring) (sched : Schedule) :
  queries (analyzeContent index words semantics originalContext sched)
  = wordLookups words
    ++ match wordAnalysis index words originalContext sched with
       | inl _ => []
       | inr _ => chunkLookups semantics
       end.
Proof.
  unfold analyzeContent, collectFlagged. simpl.
  destruct (wordAnalysis index words originalContext sched); simpl;
    [now rewrite app_nil_r|reflexivity].
Qed.

(** When [analyzeContent] returns, the lookups that settled are the queries
    it sent, in some order. *)
Lemma returned_queries_settled (index : Index) (words semantics : list jsstring)
  (originalContext : jsstring) (sched : Schedule) (m : FlaggedMap) :
  result (collectFlagged index words semantics originalContext sched) = inr m ->
  Permutation
    (queries (analyzeContent index words semantics originalContext sched))
    (settledLookups words semantics sched).
Proof.
  intros Hm. rewrite analyzeContent_queries. unfold collectFlagged in Hm.
  destruct (wordAnalysis index words originalContext sched) as [err|m1];
    [discriminate|].
  unfold settledLookups, wordLookups, chunkLookups.
  apply Permutation_app; apply Permutation_map, completionOrder_perm.
Qed.

Lemma analyzeContent_returns (index : Index) (words semantics : list jsstring)
  (originalContext : jsstring) (sched : Schedule) (r : TextAnalysisResult.t) :
  result (analyzeContent index words semantics originalContext sched) = inr r ->
  exists m,
    result (collectFlagged index words semantics originalContext sched) = inr m
    /\ r = verdict m.
Proof.
  unfold analyzeContent. simpl.
  destruct (result (collectFlagged index words semantics originalContext sched))
    as [err|m]; [discriminate|].
  intros [= <-]. eauto.
Qed.

Lemma set_not_nil (k : Key) (v : FlaggedContent.t) (m : FlaggedMap) :
  set k v m <> [].
Proof.
  unfold set. destruct m as [|[k' v'] m]; simpl; [discriminate|].
  destruct (Key_eq_dec k k'); discriminate.
Qed.

(** The writes leave the map empty exactly when it was empty and no lookup
    writes. *)
Lemma writes_nil_iff (index : Index) (originalContext : jsstring)
  (l : list Lookup) :
  forall m,
    fold_left (write index originalContext) l m = [] <->
    m = [] /\ forall q, In q l -> records index originalContext q = None.
Proof.
  induction l as [|q l IH]; intros m; simpl.
  - split; [intros ->; split; [reflexivity|intros q []]|tauto].
  - rewrite IH. unfold write.
    destruct (records index originalContext q) as [[k c]|] eqn:R.
    + split.
      * intros [E _]. exfalso. exact (set_not_nil _ _ _ E).
      * intros [_ H]. specialize (H q (or_introl eq_refl)). congruence.
    + split.
      * intros [-> H]. split; [reflexivity|].
        intros q' [<-|Hq]; [exact R|exact (H q' Hq)].
      * intros [-> H]. split; [reflexivity|].
        intros q' Hq. apply H. now right.
Qed.

(** When every lookup that writes, writes the same candidate under the same
    label, the map holds that entry alone. *)
Lemma writes_single (index : Index) (originalContext : jsstring)
  (label : Key) (c : FlaggedContent.t) (l : list Lookup) :
  (forall q, In q l ->
             records index originalContext q = None \/
             records index originalContext q = Some (label, c)) ->
  forall m,
    m = [] \/ m = [(label, c)] ->
    fold_left (write index originalContext) l m = m \/
    fold_left (write index originalContext) l m = [(label, c)].
Proof.
  induction l as [|q l IH]; intros Hl m Hm; simpl; [now left|].
  assert (Hl' : forall q', In q' l ->
                           records index originalContext q' = None \/
                           records index originalContext q' = Some (label, c))
    by (intros q' Hq; apply Hl; now right).
  assert (W : write index originalContext m q = m \/
              write index originalContext m q = [(label, c)]).
  { unfold write. destruct (Hl q (or_introl eq_refl)) as [R|R]; rewrite R;
      [now left|right].
    destruct Hm as [->| ->]; unfold set; simpl; [reflexivity|].
    destruct (Key_eq_dec label label); congruence. }
  destruct W as [W|W]; rewrite W.
  - exact (IH Hl' m Hm).
  - right.
    destruct (IH Hl' [(label, c)] (or_intror eq_refl)) as [H|H]; exact H.
Qed.

(** On the map of a run the verdict is "not flagged" only for the empty
    map. *)
Lemma verdict_clean_iff (index : Index) (units : list jsstring) (m : FlaggedMap) :
  Sound index units m ->
  (TextAnalysisResult.isImproprio (verdict m) = false <-> m = []).
Proof.
  intros Hm. split.
  - intros H. destruct m as [|e m]; [reflexivity|]. exfalso.
    destruct (findHighestScore_Sound index units (e :: m) Hm)
      as (before & e' & after & _ & F & _); [discriminate|].
    unfold verdict in H. rewrite F in H. discriminate.
  - intros ->. reflexivity.
Qed.

Lemma NoDup_keys_set (k : Key) (v : FlaggedContent.t) (m : FlaggedMap) :
  NoDup (JsMap.keys m) -> NoDup (JsMap.keys (set k v m)).
Proof.
  unfold set, JsMap.keys. induction m as [|[k' v'] m IH]; simpl; intros H.
  - constructor; [intros []|constructor].
  - inversion H as [|? ? Hn Hd]; subst.
    destruct (Key_eq_dec k k') as [->|N]; simpl.
    + constructor; assumption.
    + constructor; [|exact (IH Hd)].
      intros Hin. apply Hn. clear IH Hd H Hn.
      induction m as [|[k0 v0] m IHm]; simpl in *.
      * destruct Hin as [E|[]]. congruence.
      * destruct (Key_eq_dec k k0) as [->|N0]; simpl in Hin.
        -- destruct Hin as [E|Hin]; [congruence|now right].
        -- destruct Hin as [E|Hin]; [now left|right; exact (IHm Hin)].
Qed.

Lemma length_set (k : Key) (v : FlaggedContent.t) (m : FlaggedMap) :
  List.length (set k v m) <= S (List.length m).
Proof.
  unfold set. induction m as [|[k' v'] m IH]; simpl; [lia|].
  destruct (Key_eq_dec k k'); simpl; lia.
Qed.

Lemma writes_keys (index : Index) (originalContext : jsstring)
  (l : list Lookup) :
  forall m,
    NoDup (JsMap.keys m) ->
    NoDup (JsMap.keys (fold_left (write index originalContext) l m)) /\
    List.length (fold_left (write index originalContext) l m)
    <= List.length m + List.length l.
Proof.
  induction l as [|q l IH]; intros m Hm; simpl.
  - split; [exact Hm|lia].
  - assert (Hw : NoDup (JsMap.keys (write index originalContext m q)) /\
                 List.length (write index originalContext m q)
                 <= S (List.length m)).
    { unfold write. destruct (records index originalContext q) as [[k c]|].
      - split; [now apply NoDup_keys_set|apply length_set].
      - split; [exact Hm|lia]. }
    destruct (IH _ (proj1 Hw)) as [Hn Hl]. split; [exact Hn|lia].
Qed.

(** A run that returns is not flagged exactly when none of its queries
    writes. *)
Lemma not_flagged_iff (index : Index) (words semantics : list jsstring)
  (originalContext : jsstring) (sched : Schedule) (r : TextAnalysisResult.t) :
  result (analyzeContent index words semantics originalContext sched) = inr r ->
  (TextAnalysisResult.isImproprio r = false <->
   forall q,
     In q (queries (analyzeContent index words semantics originalContext sched)) ->
     records index originalContext q = None).
Proof.
  intros Hr. destruct (analyzeContent_returns _ _ _ _ _ _ Hr) as (m & Hm & ->).
  rewrite (verdict_clean_iff index _ m (collectFlagged_Sound _ _ _ _ _ _ Hm)).
  pose proof (returned_queries_settled _ _ _ _ _ _ Hm) as P.
  rewrite (collectFlagged_history _ _ _ _ _ _ Hm) at 1.
  rewrite writes_nil_iff. split.
  - intros [_ H] q Hq. apply H. exact (Permutation_in q P Hq).
  - intros H. split; [reflexivity|]. intros q Hq. apply H.
    exact (Permutation_in q (Permutation_sym P) Hq).
Qed.

(** [analyzeContent] returns exactly when none of the queries it sent is
    rejected. *)
Lemma analyzeContent_returns_iff (index : Index)
  (words semantics : list jsstring) (originalContext : jsstring)
  (sched : Schedule) :
  (exists r,
      result (analyzeContent index words semantics originalContext sched)
      = inr r) <->
  (forall q err,
      In q (queries (analyzeContent index words semantics originalContext sched)) ->
      index (lookupText q) <> Rejected err).
Proof.
  pose proof (analyzeContent_throws_iff index words semantics originalContext
                sched) as T.
  pose proof (wordAnalysis_throws_iff index words originalContext sched) as W.
  rewrite analyzeContent_queries. unfold wordLookups, chunkLookups. split.
  - intros (r & Hr) q err Hin Hq.
    assert (Thrown : exists err,
               result (analyzeContent index words semantics originalContext
                         sched) = inl err).
    { apply T. apply in_app_or in Hin. destruct Hin as [Hin|Hin].
      - apply in_map_iff in Hin. destruct Hin as (u & <- & Hu). left. eauto.
      - destruct (wordAnalysis index words originalContext sched);
          [destruct Hin|].
        apply in_map_iff in Hin. destruct Hin as (u & <- & Hu). right. eauto. }
    destruct Thrown as (e & He). congruence.
  - intros Hno.
    destruct (result (analyzeContent index words semantics originalContext
                        sched)) as [err|r] eqn:R; [exfalso|eauto].
    assert (NoWord : ~ exists word err,
               In word (queriedWords words) /\ index word = Rejected err).
    { intros (u & e & Hu & Hq).
      apply (Hno (WordLookup u) e); [|exact Hq].
      apply in_or_app. left. now apply in_map. }
    destruct (proj1 T (ex_intro _ err eq_refl)) as [H|(u & e & Hu & Hq)];
      [exact (NoWord H)|].
    destruct (wordAnalysis index words originalContext sched) as [e'|m1] eqn:Wa.
    + apply NoWord, W. eauto.
    + apply (Hno (ChunkLookup u) e); [|exact Hq].
      apply in_or_app. right. now apply in_map.
Qed.

(** What [postRoot] answers, case by case. *)
Lemma postRoot_cases (toLowerCase : jsstring -> jsstring)
  (splitter : jsstring -> list jsstring) (c : HonoContext) (sched : Schedule) :
  (contentType c <> Some (Js.lit "application/json") /\
   postRoot toLowerCase splitter c sched
   = ([], {| status := 406; payload := EsperadoCorpoJSON |}))
  \/ (contentType c = Some (Js.lit "application/json") /\
      ((exists err details,
           json c = inl err /\
           postRoot toLowerCase splitter c sched
           = ([], {| status := 500; payload := ErroInterno details |}))
       \/ exists body,
           json c = inr body /\
           ((validateRequest body
             = Some {| status := 400; payload := MensagemObrigatoria |} /\
             postRoot toLowerCase splitter c sched
             = ([], {| status := 400; payload := MensagemObrigatoria |}))
            \/ (validateRequest body
                = Some {| status := 413; payload := LimiteExcedido |} /\
                postRoot toLowerCase splitter c sched
                = ([], {| status := 413; payload := LimiteExcedido |}))
            \/ (validateRequest body = None /\
                exists words semantics sanitizedMessage,
                  sanitizedMessage
                  = TextProcessor.sanitizeText toLowerCase (message body) /\
                  words = TextProcessor.splitIntoWords sanitizedMessage /\
                  semantics
                  = TextProcessor.splitIntoSemantics splitter sanitizedMessage /\
                  fst (postRoot toLowerCase splitter c sched)
                  = queries (analyzeContent (vectorClient c) words semantics
                               sanitizedMessage sched) /\
                  ((exists err details,
                       result (analyzeContent (vectorClient c) words semantics
                                 sanitizedMessage sched) = inl err /\
                       snd (postRoot toLowerCase splitter c sched)
                       = {| status := 500; payload := ErroInterno details |})
                   \/ (exists r,
                          result (analyzeContent (vectorClient c) words
                                    semantics sanitizedMessage sched) = inr r /\
                          snd (postRoot toLowerCase splitter c sched)
                          = {| status := 200; payload := Analysis r |})))))).
Proof.
  unfold postRoot, handleDetection.
  destruct (contentType c) as [ct|] eqn:Ct; [|left; split; [discriminate|reflexivity]].
  destruct (Js.eqb ct (Js.lit "application/json")) eqn:E.
  - apply JsFacts.eqb_eq in E. subst ct. right. split; [reflexivity|].
    destruct (json c) as [err|body]; [left; simpl; eauto|].
    right. exists body. split; [reflexivity|].
    unfold validateRequest at 3.
    destruct (validateRequest body) as [r|] eqn:V.
    + unfold validateRequest in V.
      destruct (Js.length (message body) =? 0).
      * injection V as <-. left. split; reflexivity.
      * destruct (_ || _); [|discriminate].
        injection V as <-. right. left. split; reflexivity.
    + right. right. split; [reflexivity|].
      eexists. eexists. eexists.
      split; [reflexivity|]. split; [reflexivity|]. split; [reflexivity|].
      unfold TextProcessor.splitText. cbn [fst snd queries result].
      split; [reflexivity|].
      destruct (result (analyzeContent _ _ _ _ _)) as [err|r];
        [left|right]; eauto.
  - left. split; [|reflexivity]. intros [= ->].
    assert (T : Js.eqb (Js.lit "application/json") (Js.lit "application/json")
                = true) by reflexivity.
    congruence.
Qed.

End RunFacts.

(** * The properties the specification states *)

Import ProfanityDetectorAPI Notions LookupFacts VerdictFacts HistoryFacts AllowFacts
  ValidationFacts.

(** ** C1: a lookup that fails *)

(** C1, as the code has it.  [analyzeContent] throws exactly when one of the
    queries it sent is rejected, and then the route answers 500; a query that
    resolves with no vector, or with one that has no score, writes nothing and
    fails nothing. *)
Theorem rejected_lookup_fails_request
  (index : Index) (words semantics : list jsstring)
  (originalContext : jsstring) (sched : Schedule) :
  ((exists err,
       result (analyzeContent index words semantics originalContext sched)
       = inl err)
   <->
   (exists q err,
       In q (queries (analyzeContent index words semantics originalContext sched))
       /\ index (lookupText q) = Rejected err))
  /\ (forall unit vectors m,
         vectors = [] \/
         (exists vector rest,
             vectors = vector :: rest /\ Vector.score vector = None) ->
         wordResume originalContext unit vectors m = m /\
         chunkResume unit vectors m = m)
  /\ (forall toLowerCase splitter c err,
         result (handleDetection toLowerCase splitter c sched) = inl err ->
         exists details,
           snd (postRoot toLowerCase splitter c sched)
           = {| status := 500; payload := ErroInterno details |}).
Proof.
  split; [|split].
  - unfold analyzeContent, collectFlagged. simpl.
    destruct (wordAnalysis index words originalContext sched) as [err|m1] eqn:W;
      simpl.
    + split; [intros _|intros _; eauto].
      destruct (proj1 (awaitAll_throws_iff _ _ _ _) (ex_intro _ err W))
        as (u & err' & Hin & Hr).
      apply SchedulerFacts.completionOrder_In in Hin.
      exists (WordLookup u), err'. split; [|exact Hr].
      apply in_map. exact Hin.
    + assert (NoWord : forall u err, In u (queriedWords words) ->
                                     index u <> Rejected err).
      { intros u err Hin Hr.
        destruct (proj2 (awaitAll_throws_iff index (wordResume originalContext)
                           (Scheduler.completionOrder (wordChoices sched)
                              (queriedWords words)) JsMap.empty)) as (e & He).
        - exists u, err. split; [|exact Hr].
          now apply SchedulerFacts.completionOrder_In.
        - unfold wordAnalysis in W. congruence. }
      unfold semanticAnalysis.
      destruct semantics as [|c semantics]; cbn [List.length Nat.ltb Nat.leb].
      * split; [intros (err & E); discriminate|].
        intros (q & err & Hin & Hr). exfalso.
        rewrite app_nil_r in Hin. apply in_map_iff in Hin.
        destruct Hin as (u & <- & Hu). exact (NoWord u err Hu Hr).
      * split.
        -- intros (err & E).
           assert (T : exists err,
                      awaitAll index chunkResume
                        (Scheduler.completionOrder (chunkChoices sched)
                           (c :: semantics)) m1 = inl err).
           { exists err.
             destruct (awaitAll _ _ _ m1) as [e|m2]; congruence. }
           apply awaitAll_throws_iff in T. destruct T as (u & err' & Hin & Hr).
           apply SchedulerFacts.completionOrder_In in Hin.
           exists (ChunkLookup u), err'. split; [|exact Hr].
           apply in_or_app. right. apply in_map. exact Hin.
        -- intros (q & err & Hin & Hr).
           apply in_app_or in Hin. destruct Hin as [Hin|Hin];
             apply in_map_iff in Hin; destruct Hin as (u & <- & Hu).
           ++ exfalso. exact (NoWord u err Hu Hr).
           ++ destruct (proj2 (awaitAll_throws_iff index chunkResume
                                 (Scheduler.completionOrder (chunkChoices sched)
                                    (c :: semantics)) m1)) as (e & He).
              ** exists u, err. split; [|exact Hr].
                 now apply SchedulerFacts.completionOrder_In.
              ** exists e. now rewrite He.
  - intros unit vectors m [->|(vector & rest & -> & Sc)].
    + split; reflexivity.
    + unfold wordResume, chunkResume. rewrite Sc. split; reflexivity.
  - intros toLowerCase splitter c err E. unfold postRoot. rewrite E. simpl. eauto.
Qed.

(** The lookup of ["down"] is rejected, so [analyzeContent] throws. *)
Lemma rejected_lookup_fails_request_witness :
  exists err,
    result (analyzeContent Examples.index (Examples.words "down darn") []
              (Js.lit "down darn") inOrder)
    = inl err.
Proof.
  apply (proj2 (proj1 (rejected_lookup_fails_request
                         Examples.index (Examples.words "down darn") []
                         (Js.lit "down darn") inOrder))).
  exists (WordLookup (Js.lit "down")), (ErrorObject (Js.lit "fetch failed")).
  split; [left; reflexivity|reflexivity].
Defined.


(** C1 as the specification states it fails.  The lookup of ["darn"] alone
    succeeds above the threshold and is reported; with the failing lookup of
    ["down"] beside it, [analyzeContent] throws and the route answers 500 with
    no analysis at all, whatever the splitter. *)
Lemma rejected_lookup_voids_response :
  analyzeContent Examples.index (Examples.words "darn") [] (Js.lit "darn") inOrder
  = {| queries := [WordLookup (Js.lit "darn")];
       result := inr {| TextAnalysisResult.isImproprio := true;
                        TextAnalysisResult.pontuacao := 0.99%float;
                        TextAnalysisResult.flag := Some (Js.lit "darn");
                        TextAnalysisResult.contexto := Some (Js.lit "darn") |} |}
  /\ analyzeContent Examples.index (Examples.words "down darn") []
       (Js.lit "down darn") inOrder
     = {| queries := [WordLookup (Js.lit "down"); WordLookup (Js.lit "darn")];
          result := inl (ErrorObject (Js.lit "fetch failed")) |}
  /\ (forall splitter,
         postRoot Examples.asciiLower splitter
           {| contentType := Some (Js.lit "application/json");
              json := inr {| message := Js.lit "down darn" |};
              vectorClient := Examples.index |}
           inOrder
         = ([WordLookup (Js.lit "down"); WordLookup (Js.lit "darn")],
            {| status := 500;
               payload := ErroInterno (Js.lit "fetch failed") |})).
Proof.
  split; [reflexivity|split; [reflexivity|]].
  intros splitter. reflexivity.
Qed.

(** A vector with a score and no metadata is no "no match": the candidate
    is written under the key [undefined], and the result is flagged with no
    label. *)
Example missing_metadata_is_flagged :
  result (analyzeContent Examples.index (Examples.words "bare") []
            (Js.lit "bare") inOrder)
  = inr (flagged (None, candidate (Js.lit "bare") 0.99)).
Proof. reflexivity. Qed.

(** ** C2: the verdict *)

(** C2. When line 244 is reached with the map [m]: [analyzeContent] returns
    the verdict on [m]; on an empty map it is the clean result with score 0;
    on a map with entries it is flagged with the label, score and context of
    the entry [e] whose score is greater than that of every entry before it in
    iteration order and not less than that of any entry after it (the first
    of the entries with the greatest score). *)
Theorem analyzeContent_reports_highest
  (index : Index) (words semantics : list jsstring)
  (originalContext : jsstring) (sched : Schedule) (m : FlaggedMap) :
  result (collectFlagged index words semantics originalContext sched) = inr m ->
  result (analyzeContent index words semantics originalContext sched)
  = inr (verdict m)
  /\ (m = [] ->
      verdict m
      = {| TextAnalysisResult.isImproprio := false;
           TextAnalysisResult.pontuacao := 0%float;
           TextAnalysisResult.flag := None;
           TextAnalysisResult.contexto := None |})
  /\ (m <> [] ->
      exists before label details after,
        m = before ++ (label, details) :: after /\
        verdict m
        = {| TextAnalysisResult.isImproprio := true;
             TextAnalysisResult.pontuacao := FlaggedContent.score details;
             TextAnalysisResult.flag := label;
             TextAnalysisResult.contexto :=
               Some (FlaggedContent.context details) |} /\
        (forall x, In x before ->
                   Num.gt (FlaggedContent.score details)
                          (FlaggedContent.score (snd x)) = true) /\
        (forall x, In x after ->
                   Num.le (FlaggedContent.score (snd x))
                          (FlaggedContent.score details) = true)).
Proof.
  intros Hm. split; [|split].
  - unfold analyzeContent. simpl. now rewrite Hm.
  - intros ->. reflexivity.
  - intros Hne.
    destruct (findHighestScore_Sound index _ m
                (collectFlagged_Sound _ _ _ _ _ _ Hm) Hne)
      as (before & [label details] & after & Eq & F & Hb & Ha).
    exists before, label, details, after.
    split; [exact Eq|]. split; [|split; [exact Hb|exact Ha]].
    unfold verdict. now rewrite F.
Qed.

(** Two words flagged under two labels, 0.97 then 0.99: the 0.99 one is
    reported. *)
Lemma analyzeContent_reports_highest_witness :
  result (analyzeContent Examples.index (Examples.words "heck darn") []
            (Js.lit "heck darn") inOrder)
  = inr {| TextAnalysisResult.isImproprio := true;
           TextAnalysisResult.pontuacao := 0.99%float;
           TextAnalysisResult.flag := Some (Js.lit "darn");
           TextAnalysisResult.contexto := Some (Js.lit "darn") |}.
Proof.
  exact (proj1 (analyzeContent_reports_highest
                  Examples.index (Examples.words "heck darn") []
                  (Js.lit "heck darn") inOrder
                  [ (Some (Js.lit "heck"), candidate (Js.lit "heck") 0.97);
                    (Some (Js.lit "darn"), candidate (Js.lit "darn") 0.99) ]
                  eq_refl)).
Defined.

(** ** C3: validation *)

(** C3, as the code has it.  An empty message, a message of more than 35
    words and a message of more than 1000 code units are rejected; a message
    with no white space at either end is rejected only then; the message is
    not trimmed, and one of white space only, up to 1000 code units, is
    accepted.  A rejected message gets the response of the validation and no
    query is sent; an accepted one is sanitized, split and analyzed. *)
Theorem validateRequest_rejects_iff (body : RequestBody) :
  (message body = [] \/
   35 < List.length (TextProcessor.splitIntoWords (message body)) \/
   1000 < Js.length (message body) ->
   validateRequest body <> None)
  /\ (Js.trim (message body) = message body ->
      validateRequest body <> None ->
      message body = [] \/
      35 < List.length (TextProcessor.splitIntoWords (message body)) \/
      1000 < Js.length (message body))
  /\ (message body <> [] ->
      Js.trim (message body) = [] ->
      Js.length (message body) <= 1000 ->
      validateRequest body = None)
  /\ (forall toLowerCase splitter index sched,
         handleDetection toLowerCase splitter (jsonRequest body index) sched
         = match validateRequest body with
           | Some validationError =>
               {| queries := []; result := inr validationError |}
           | None =>
               let sanitizedMessage :=
                 TextProcessor.sanitizeText toLowerCase (message body) in
               let analysis :=
                 analyzeContent index
                   (TextProcessor.splitIntoWords sanitizedMessage)
                   (TextProcessor.splitIntoSemantics splitter sanitizedMessage)
                   sanitizedMessage sched in
               {| queries := queries analysis;
                  result :=
                    match result analysis with
                    | inl err => inl err
                    | inr r => inr {| status := 200; payload := Analysis r |}
                    end |}
           end).
Proof.
  split; [|split; [|split]].
  - intros H. apply validateRequest_spec.
    pose proof (SplitFacts.words_le_pieces (message body)).
    destruct H as [H|[H|H]]; [now left|right; left; lia|now right; right].
  - intros Ht H. apply validateRequest_spec in H.
    destruct H as [H|[H|H]]; [now left| |now right; right].
    destruct (message body) as [|c r] eqn:E; [now left|].
    right. left.
    rewrite <- SplitFacts.split_trimmed_words; [exact H|exact Ht|discriminate].
  - intros Hne Ht Hlen.
    destruct (validateRequest body) as [response|] eqn:V; [|reflexivity].
    exfalso.
    assert (R : validateRequest body <> None) by congruence.
    apply validateRequest_spec in R.
    rewrite (SplitFacts.split_blank _ Hne Ht) in R. simpl in R.
    destruct R as [R|[R|R]]; [contradiction|lia|lia].
  - intros toLowerCase splitter index sched.
    unfold handleDetection, jsonRequest. simpl.
    destruct (validateRequest body); reflexivity.
Qed.

(** The empty message is rejected; three spaces are accepted. *)
Lemma validateRequest_rejects_iff_witness :
  validateRequest {| message := Js.lit "" |} <> None
  /\ validateRequest {| message := Js.lit "   " |} = None.
Proof.
  split.
  - apply (proj1 (validateRequest_rejects_iff {| message := Js.lit "" |})).
    left. reflexivity.
  - apply (proj1 (proj2 (proj2 (validateRequest_rejects_iff
                                 {| message := Js.lit "   " |})))).
    + discriminate.
    + reflexivity.
    + simpl. lia.
Defined.

(** C3 as the specification states it fails.  A message of one space is
    empty after trimming and is not rejected: it is answered 200, clean, with
    no query sent. *)
Lemma validateRequest_does_not_trim :
  Js.trim (Js.lit " ") = []
  /\ validateRequest {| message := Js.lit " " |} = None
  /\ forall splitter,
       postRoot Examples.asciiLower splitter
         (jsonRequest {| message := Js.lit " " |} Examples.index) inOrder
       = ([], {| status := 200; payload := Analysis clean |}).
Proof.
  split; [reflexivity|split; [reflexivity|]]. intros splitter. reflexivity.
Qed.

(** White space at either end of a message adds an empty piece to the count
    of [validateRequest]: 35 words after a leading space are 36 pieces, and
    the message is rejected with 413. *)
Example leading_space_counts_as_word :
  List.length
    (TextProcessor.splitIntoWords
       (Js.lit " a a a a a a a a a a a a a a a a a a a a a a a a a a a a a a a a a a a"))
  = 35
  /\ Js.length (Js.lit " a a a a a a a a a a a a a a a a a a a a a a a a a a a a a a a a a a a")
     = 70
  /\ validateRequest
       {| message := Js.lit " a a a a a a a a a a a a a a a a a a a a a a a a a a a a a a a a a a a" |}
     = Some {| status := 413; payload := LimiteExcedido |}.
Proof. repeat split; reflexivity. Qed.

(** ** C4: labels allowed in a context *)

(** C4. A label that the index returns for a word and that has a
    context-specific entry one of whose contexts occurs in the message is not
    written by that lookup, whatever its score, and no label in the map after
    the word analysis is such a label; a label with no context-specific entry
    is not exempt and is written when the score exceeds 0.95. *)
Theorem allowed_context_never_flagged_by_word
  (index : Index) (words : list jsstring)
  (originalContext : jsstring) (sched : Schedule) :
  (forall word vector rest m contextSpecific allowedContext,
      ALLOWED_WORDS.CONTEXT_SPECIFIC_get (Vector.metadataText vector)
      = Some contextSpecific ->
      In allowedContext contextSpecific ->
      occursIn allowedContext originalContext ->
      wordResume originalContext word (vector :: rest) m = m)
  /\ (forall m e,
         wordAnalysis index words originalContext sched = inr m ->
         In e m ->
         forall contextSpecific allowedContext,
           ALLOWED_WORDS.CONTEXT_SPECIFIC_get (fst e) = Some contextSpecific ->
           In allowedContext contextSpecific ->
           ~ occursIn allowedContext originalContext)
  /\ (forall word vector rest m score,
         ALLOWED_WORDS.CONTEXT_SPECIFIC_get (Vector.metadataText vector) = None ->
         TextProcessor.isAllowedInContext (Vector.metadataText vector)
           originalContext = false /\
         (Vector.score vector = Some score ->
          Num.gt score CONFIG.WORD_THRESHOLD = true ->
          wordResume originalContext word (vector :: rest) m
          = set (Vector.metadataText vector) (candidate word score) m)).
Proof.
  split; [|split].
  - intros word vector rest m contextSpecific allowedContext Hget Hin Hocc.
    assert (Al : TextProcessor.isAllowedInContext (Vector.metadataText vector)
                   originalContext = true)
      by (apply isAllowedInContext_spec; eauto).
    unfold wordResume. rewrite Al.
    destruct (Vector.score vector) as [score|]; [|reflexivity].
    now destruct (Num.truthy score && Num.gt score CONFIG.WORD_THRESHOLD).
  - intros m e Hm He contextSpecific allowedContext Hget Hin Hocc.
    pose proof (wordAnalysis_not_allowed _ _ _ _ _ Hm e He) as Al.
    assert (T : TextProcessor.isAllowedInContext (fst e) originalContext = true)
      by (apply isAllowedInContext_spec; eauto).
    congruence.
  - intros word vector rest m score Hget.
    assert (Al : TextProcessor.isAllowedInContext (Vector.metadataText vector)
                   originalContext = false)
      by (unfold TextProcessor.isAllowedInContext; now rewrite Hget).
    split; [exact Al|]. intros Sc G.
    unfold wordResume. rewrite Sc, Al, G.
    now rewrite (word_threshold_truthy score G).
Qed.

(** The label [black] at 0.97 for the word ["blak"] is not written in a
    message that contains ["black belt"]. *)
Lemma allowed_context_never_flagged_by_word_witness :
  wordResume (Js.lit "a blak black belt") (Js.lit "blak")
    [Examples.entry 0.97 "black"] JsMap.empty
  = JsMap.empty.
Proof.
  apply (proj1 (allowed_context_never_flagged_by_word
                  Examples.index (Examples.words "a blak black belt")
                  (Js.lit "a blak black belt") inOrder)
           (Js.lit "blak") (Examples.entry 0.97 "black") [] JsMap.empty
           [Js.lit "black belt"; Js.lit "black coffee"; Js.lit "black friday"]
           (Js.lit "black belt")).
  - reflexivity.
  - left. reflexivity.
  - exists (Js.lit "a blak "), []. reflexivity.
Defined.

(** The scenario of the specification: the label [black] comes back at 0.97
    for a word of a message that contains ["black belt"], and nothing is
    flagged; without that context the same lookup is flagged. *)
Example black_belt_scenario :
  result (analyzeContent Examples.index (Examples.words "a blak black belt") []
            (Js.lit "a blak black belt") inOrder)
  = inr clean
  /\ result (analyzeContent Examples.index (Examples.words "a blak shirt") []
               (Js.lit "a blak shirt") inOrder)
     = inr (flagged (Some (Js.lit "black"), candidate (Js.lit "blak") 0.97)).
Proof. split; reflexivity. Qed.

(** ** C5: the general allow list *)

(** C5. A word of the general allow list is not queried by the word
    analysis and is the context of no entry it writes; the chunks are all
    queried, allow-listed or not, so an entry of the final map whose context
    is allow-listed comes from a chunk. *)
Theorem general_allowlist_skips_word_lookup
  (index : Index) (words semantics : list jsstring)
  (originalContext : jsstring) (sched : Schedule) :
  (forall word,
      ALLOWED_WORDS.GENERAL_has word = true ->
      ~ In (WordLookup word)
           (queries (analyzeContent index words semantics originalContext sched)))
  /\ (forall m e,
         wordAnalysis index words originalContext sched = inr m ->
         In e m ->
         ALLOWED_WORDS.GENERAL_has (FlaggedContent.context (snd e)) = false)
  /\ (forall m chunk,
         wordAnalysis index words originalContext sched = inr m ->
         In chunk semantics ->
         In (ChunkLookup chunk)
            (queries (analyzeContent index words semantics originalContext sched)))
  /\ (forall m e,
         result (collectFlagged index words semantics originalContext sched)
         = inr m ->
         In e m ->
         ALLOWED_WORDS.GENERAL_has (FlaggedContent.context (snd e)) = true ->
         In (FlaggedContent.context (snd e)) semantics).
Proof.
  assert (Q : forall word,
             In (WordLookup word)
                (queries (analyzeContent index words semantics
                            originalContext sched)) ->
             In word (queriedWords words)).
  { intros word. unfold analyzeContent, collectFlagged. simpl.
    destruct (wordAnalysis index words originalContext sched); simpl;
      intros Hin; [|apply in_app_or in Hin; destruct Hin as [Hin|Hin]];
      apply in_map_iff in Hin; destruct Hin as (u & E & Hu);
      try discriminate; now injection E as <-. }
  split; [|split; [|split]].
  - intros word Hal Hin. apply Q, GENERAL_has_queried in Hin.
    destruct Hin as (_ & Hn). congruence.
  - intros m e Hm He.
    destruct (wordAnalysis_Sound _ _ _ _ _ Hm e He) as (Hin & _).
    now apply GENERAL_has_queried in Hin.
  - intros m chunk Hm Hin. unfold analyzeContent, collectFlagged. simpl.
    rewrite Hm. simpl. apply in_or_app. right. now apply in_map.
  - intros m e Hm He Hal.
    destruct (collectFlagged_Sound _ _ _ _ _ _ Hm e He) as (Hin & _).
    apply in_app_or in Hin. destruct Hin as [Hin|Hin]; [|exact Hin].
    apply GENERAL_has_queried in Hin. destruct Hin as (_ & Hn). congruence.
Qed.

(** ["black"] is in the general allow list: the word analysis of
    ["black darn"] does not query it. *)
Lemma general_allowlist_skips_word_lookup_witness :
  ~ In (WordLookup (Js.lit "black"))
       (queries (analyzeContent Examples.index (Examples.words "black darn") []
                   (Js.lit "black darn") inOrder)).
Proof.
  apply (proj1 (general_allowlist_skips_word_lookup
                  Examples.index (Examples.words "black darn") []
                  (Js.lit "black darn") inOrder)
           (Js.lit "black")).
  reflexivity.
Defined.

(** The allow-listed word ["black"] is not looked up as a word, though the
    index would return it at 1.0; as a chunk it is looked up and flagged. *)
Example black_is_skipped_as_word_only :
  analyzeContent Examples.index (Examples.words "black") [] (Js.lit "black")
    inOrder
  = {| queries := []; result := inr clean |}
  /\ analyzeContent Examples.index [] [Js.lit "black"] (Js.lit "black") inOrder
     = {| queries := [ChunkLookup (Js.lit "black")];
          result := inr (flagged (Some (Js.lit "black"),
                                  candidate (Js.lit "black") 1.0)) |}.
Proof. split; reflexivity. Qed.

(** ** C6: semantic chunks *)

(** C6. The callback of a chunk writes a candidate under the returned label
    exactly when the first vector has a score above 0.96, and neither allow
    list is consulted: the chunk may be allow-listed and the label allowed in
    the context.  With no chunk there is no semantic lookup; and when
    [analyzeContent] reaches line 244, the label of every chunk whose score is
    above 0.96 is a key of the map. *)
Theorem chunk_recorded_iff_above_threshold
  (index : Index) (words semantics : list jsstring)
  (originalContext : jsstring) (sched : Schedule) :
  (forall chunk vector rest score m,
      Vector.score vector = Some score ->
      Num.gt score CONFIG.SEMANTIC_THRESHOLD = true ->
      chunkResume chunk (vector :: rest) m
      = set (Vector.metadataText vector) (candidate chunk score) m)
  /\ (forall chunk vectors m,
         (forall vector rest score,
             vectors = vector :: rest ->
             Vector.score vector = Some score ->
             Num.gt score CONFIG.SEMANTIC_THRESHOLD = false) ->
         chunkResume chunk vectors m = m)
  /\ (forall m, semanticAnalysis index [] sched m = inr m)
  /\ (forall m chunk vector rest score,
         result (collectFlagged index words semantics originalContext sched)
         = inr m ->
         In chunk semantics ->
         index chunk = Resolved (vector :: rest) ->
         Vector.score vector = Some score ->
         Num.gt score CONFIG.SEMANTIC_THRESHOLD = true ->
         In (Vector.metadataText vector) (JsMap.keys m)).
Proof.
  split; [|split; [|split]].
  - intros chunk vector rest score m Sc G.
    unfold chunkResume. rewrite Sc, G.
    now rewrite (semantic_threshold_truthy score G).
  - intros chunk vectors m Below.
    destruct (chunkResume_cases chunk vectors m)
      as [(vector & rest & score & E & Sc & G & _)|E]; [|exact E].
    rewrite (Below vector rest score E Sc) in G. discriminate.
  - reflexivity.
  - intros m chunk vector rest score Hm Hin Hq Sc G.
    unfold collectFlagged in Hm.
    destruct (wordAnalysis index words originalContext sched) as [err|m1];
      simpl in Hm; [discriminate|].
    unfold semanticAnalysis in Hm.
    destruct semantics as [|c0 semantics0] eqn:Es; [contradiction|].
    cbn [List.length Nat.ltb Nat.leb] in Hm. rewrite <- Es in *. clear Es.
    apply (SchedulerFacts.completionOrder_In (chunkChoices sched)) in Hin.
    destruct (in_split _ _ Hin) as (l1 & l2 & El).
    rewrite El, awaitAll_app in Hm.
    destruct (awaitAll index chunkResume l1 m1) as [err|m2]; [discriminate|].
    simpl in Hm. rewrite Hq in Hm.
    refine (awaitAll_chunks_keep_keys index _ l2 _ m _ Hm).
    unfold chunkResume. rewrite Sc, G.
    rewrite (semantic_threshold_truthy score G). simpl.
    apply JsMapFacts.set_has_key.
Qed.

(** The chunk ["black belt"] at 0.97 under the label [black] is written. *)
Lemma chunk_recorded_iff_above_threshold_witness :
  chunkResume (Js.lit "black belt") [Examples.entry 0.97 "black"] JsMap.empty
  = [ (Some (Js.lit "black"), candidate (Js.lit "black belt") 0.97) ].
Proof.
  apply (proj1 (chunk_recorded_iff_above_threshold
                  Examples.index (Examples.words "black belt")
                  [Js.lit "black belt"] (Js.lit "black belt") inOrder)
           (Js.lit "black belt") (Examples.entry 0.97 "black") [] 0.97%float
           JsMap.empty).
  - reflexivity.
  - reflexivity.
Defined.

(** The chunk ["black belt"] comes back under the label [black] at 0.97: it
    is flagged, though the label is allowed in that very context. *)
Example chunk_match_is_not_exempt :
  TextProcessor.isAllowedInContext (Some (Js.lit "black")) (Js.lit "black belt")
  = true
  /\ result (analyzeContent Examples.index (Examples.words "black belt")
               [Js.lit "black belt"] (Js.lit "black belt") inOrder)
     = inr (flagged (Some (Js.lit "black"),
                     candidate (Js.lit "black belt") 0.97)).
Proof. split; reflexivity. Qed.

(** ** C7: one entry per label, the last write *)

(** C7. The map is keyed by the label the index returns, and the last write
    under a label stands: if the lookup [q] writes the candidate [c] under
    [label] and no lookup that settles after it writes under [label], the map
    at line 244 holds [c] for [label], whatever was written under it before
    and whatever the scores are. *)
Theorem flaggedContent_last_write_wins
  (index : Index) (words semantics : list jsstring)
  (originalContext : jsstring) (sched : Schedule) (m : FlaggedMap)
  (before after : list Lookup) (q : Lookup)
  (label : Key) (c : FlaggedContent.t) :
  result (collectFlagged index words semantics originalContext sched) = inr m ->
  settledLookups words semantics sched = before ++ q :: after ->
  records index originalContext q = Some (label, c) ->
  (forall q' c', In q' after ->
                 records index originalContext q' <> Some (label, c')) ->
  get label m = Some c.
Proof.
  intros Hm Hs Hq Hafter.
  rewrite (collectFlagged_history _ _ _ _ _ _ Hm), Hs, fold_left_app.
  simpl. rewrite (writes_elsewhere _ _ _ _ Hafter).
  unfold write. rewrite Hq. apply JsMapFacts.get_set_same.
Qed.

(** ["darn"] scores 0.99 under the label [darn], ["dang"] 0.98 under the same
    label and settles later: the map keeps 0.98. *)
Lemma flaggedContent_last_write_wins_witness :
  records Examples.index (Js.lit "darn dang") (WordLookup (Js.lit "darn"))
  = Some (Some (Js.lit "darn"), candidate (Js.lit "darn") 0.99)
  /\ result (collectFlagged Examples.index (Examples.words "darn dang") []
               (Js.lit "darn dang") inOrder)
     = inr [ (Some (Js.lit "darn"), candidate (Js.lit "dang") 0.98) ]
  /\ get (Some (Js.lit "darn"))
         [ (Some (Js.lit "darn"), candidate (Js.lit "dang") 0.98) ]
     = Some (candidate (Js.lit "dang") 0.98).
Proof.
  split; [reflexivity|split; [reflexivity|]].
  apply (flaggedContent_last_write_wins
           Examples.index (Examples.words "darn dang") [] (Js.lit "darn dang")
           inOrder
           [ (Some (Js.lit "darn"), candidate (Js.lit "dang") 0.98) ]
           [WordLookup (Js.lit "darn")] [] (WordLookup (Js.lit "dang"))).
  - reflexivity.
  - reflexivity.
  - reflexivity.
  - intros q' c' [].
Defined.

(** ** C8: the chunks cover the text *)

(** The space between two words that do not fit one chunk is in no chunk:
    the text is sanitized and has two words, its chunks are the two words,
    each trimmed, and none of them holds the space the text holds. *)
Lemma space_between_chunks_in_no_chunk :
  TextProcessor.sanitizeText
    Examples.asciiLower (Js.lit "internationalization misunderstanding")
  = Js.lit "internationalization misunderstanding"
  /\ List.length (TextProcessor.splitIntoWords
                    (Js.lit "internationalization misunderstanding")) = 2
  /\ TextProcessor.splitIntoSemantics
       RecursiveCharacterTextSplitter.createDocuments
       (Js.lit "internationalization misunderstanding")
     = [Js.lit "internationalization"; Js.lit "misunderstanding"]
  /\ In 32%N (Js.lit "internationalization misunderstanding")
  /\ ~ (forall c,
           In c (Js.lit "internationalization misunderstanding") ->
           exists chunk,
             In chunk (TextProcessor.splitIntoSemantics
                         RecursiveCharacterTextSplitter.createDocuments
                         (Js.lit "internationalization misunderstanding")) /\
             In c chunk).
Proof.
  assert (Hs : In 32%N (Js.lit "internationalization misunderstanding")).
  { apply in_or_app with (l := Js.lit "internationalization"). right. now left. }
  split; [reflexivity|]. split; [reflexivity|]. split; [reflexivity|].
  split; [exact Hs|].
  intros H. destruct (H 32%N Hs) as (chunk & Hin & Hc).
  destruct Hin as [<-|[<-|[]]];
    repeat (destruct Hc as [Hc|Hc]; [discriminate Hc|]); destruct Hc.
Qed.

(** C8. For a text of two words or more, every occurrence in the text of a
    code unit that is not white space lies within one of the chunks of
    [splitIntoSemantics]: the chunk is a span of the text that starts at or
    before the occurrence and ends after it.  For a text of at most one word
    [splitIntoSemantics] returns no chunk, whatever the splitter. *)
Theorem semantic_chunks_cover_non_space (text : jsstring) :
  (2 <= List.length (TextProcessor.splitIntoWords text) ->
   forall before c after,
     text = before ++ c :: after ->
     Js.isSpace c = false ->
     exists chunk left mid rest right,
       In chunk (TextProcessor.splitIntoSemantics
                   RecursiveCharacterTextSplitter.createDocuments text) /\
       chunk = mid ++ c :: rest /\
       before = left ++ mid /\
       after = rest ++ right)
  /\ (forall splitter,
         List.length (TextProcessor.splitIntoWords text) <= 1 ->
         TextProcessor.splitIntoSemantics splitter text = []).
Proof.
  split.
  - intros Hw before c after -> Hc.
    rewrite SemanticsFacts.splitIntoSemantics_many_words by lia.
    exact (SplitterFacts.createDocuments_within before after c Hc).
  - intros splitter. apply SemanticsFacts.splitIntoSemantics_few_words.
Qed.

(** The six words of the scenario of the specification make two chunks, and
    the [k] of [black] lies within one of them. *)
Lemma semantic_chunks_cover_non_space_witness :
  TextProcessor.splitIntoSemantics
    RecursiveCharacterTextSplitter.createDocuments
    (Js.lit "this is a black belt competition")
  = [Js.lit "this is a black belt"; Js.lit "belt competition"]
  /\ exists chunk left mid rest right,
       In chunk (TextProcessor.splitIntoSemantics
                   RecursiveCharacterTextSplitter.createDocuments
                   (Js.lit "this is a black belt competition")) /\
       chunk = mid ++ 107%N :: rest /\
       Js.lit "this is a blac" = left ++ mid /\
       Js.lit " belt competition" = rest ++ right.
Proof.
  split; [reflexivity|].
  apply (proj1 (semantic_chunks_cover_non_space
                  (Js.lit "this is a black belt competition"))).
  - simpl. lia.
  - reflexivity.
  - reflexivity.
Defined.

(** A word of [chunkSize] code units or more is split into chunks of its
    own, which overlap. *)
Example long_word_is_split :
  TextProcessor.splitIntoSemantics
    RecursiveCharacterTextSplitter.createDocuments
    (Js.lit "a supercalifragilisticexpialidocious word")
  = [Js.lit "a"; Js.lit "supercalifragilisticexpi";
     Js.lit "sticexpialidocious"; Js.lit "word"].
Proof. reflexivity. Qed.

(** ** C9: [sanitizeText] is idempotent *)

Section Sanitize.

Variable toLowerCase : jsstring -> jsstring.

(** Lower-casing leaves no upper-case ASCII letter. *)
Hypothesis toLowerCase_no_upper :
  forall s c, In c (toLowerCase s) -> Js.isUpper c = false.

(** Lower-casing changes nothing in a string of lower-case ASCII letters,
    digits, underscores and white space. *)
Hypothesis toLowerCase_fixed :
  forall s, (forall c, In c s -> Notions.caseless c = true) ->
            toLowerCase s = s.

(** What [sanitizeText] returns has only caseless code units. *)
Lemma sanitizeText_caseless (x : jsstring) (c : Js.codeunit) :
  In c (TextProcessor.sanitizeText toLowerCase x) ->
  Notions.caseless c = true.
Proof.
  unfold TextProcessor.sanitizeText. intros H.
  apply JsFacts.trim_In, JsFacts.removeNonWordNonSpace_In in H.
  destruct H as (Hin & Hk).
  exact (SanitizeFacts.word_not_upper_caseless c Hk
           (toLowerCase_no_upper _ _ Hin)).
Qed.

(** C9. [sanitizeText] is idempotent: sanitizing what it returned changes
    nothing, for any [toLowerCase] that leaves no [A-Z] and fixes the strings
    of [a-z], [0-9], [_] and white space. *)
Theorem sanitizeText_idempotent (x : jsstring) :
  TextProcessor.sanitizeText toLowerCase
    (TextProcessor.sanitizeText toLowerCase x)
  = TextProcessor.sanitizeText toLowerCase x.
Proof.
  pose proof (sanitizeText_caseless x) as Hc.
  remember (TextProcessor.sanitizeText toLowerCase x) as y eqn:Ey.
  unfold TextProcessor.sanitizeText at 1.
  rewrite (toLowerCase_fixed y Hc).
  unfold Js.removeNonWordNonSpace. rewrite JsFacts.filter_all.
  - rewrite Ey. unfold TextProcessor.sanitizeText. apply JsFacts.trim_idem.
  - intros c Hin. exact (SanitizeFacts.caseless_kept c (Hc c Hin)).
Qed.

End Sanitize.

Lemma sanitizeText_idempotent_witness :
  TextProcessor.sanitizeText Examples.asciiLower (Js.lit "  Black-Belt, OK?  ")
  = Js.lit "blackbelt ok"
  /\ TextProcessor.sanitizeText Examples.asciiLower
       (TextProcessor.sanitizeText Examples.asciiLower
          (Js.lit "  Black-Belt, OK?  "))
     = TextProcessor.sanitizeText Examples.asciiLower
         (Js.lit "  Black-Belt, OK?  ").
Proof.
  split; [reflexivity|].
  exact (sanitizeText_idempotent Examples.asciiLower
           SanitizeFacts.asciiLower_no_upper SanitizeFacts.asciiLower_fixed
           (Js.lit "  Black-Belt, OK?  ")).
Defined.

(** ** C10: the shape of the result *)

(** C10. A result [analyzeContent] returns is either flagged, with a score
    above 0.95 that is the score the index gave for one of the units queried
    (the unit reported as context, under the label the index gave), or not
    flagged, with score 0 and neither label nor context. *)
Theorem analyzeContent_result_invariant
  (index : Index) (words semantics : list jsstring)
  (originalContext : jsstring) (sched : Schedule) (r : TextAnalysisResult.t) :
  result (analyzeContent index words semantics originalContext sched) = inr r ->
  (TextAnalysisResult.isImproprio r = true ->
   Num.gt (TextAnalysisResult.pontuacao r) CONFIG.WORD_THRESHOLD = true /\
   exists unit vector rest,
     In unit (queriedWords words ++ semantics) /\
     index unit = Resolved (vector :: rest) /\
     Vector.score vector = Some (TextAnalysisResult.pontuacao r) /\
     TextAnalysisResult.contexto r = Some unit /\
     TextAnalysisResult.flag r = Vector.metadataText vector)
  /\ (TextAnalysisResult.isImproprio r = false ->
      TextAnalysisResult.pontuacao r = 0%float /\
      TextAnalysisResult.flag r = None /\
      TextAnalysisResult.contexto r = None).
Proof.
  unfold analyzeContent. simpl.
  destruct (result (collectFlagged index words semantics originalContext sched))
    as [err|m] eqn:Hm; [discriminate|].
  intros [= <-].
  destruct (verdict_cases m) as [->|(e & He & ->)].
  - split; [discriminate|]. intros _. repeat split.
  - split; [|discriminate]. intros _.
    destruct (collectFlagged_Sound _ _ _ _ _ _ Hm e He)
      as (Hin & G & vector & rest & Hq & Hs & Hl).
    split; [exact G|].
    exists (FlaggedContent.context (snd e)), vector, rest.
    simpl. repeat split; auto.
Qed.

Lemma analyzeContent_result_invariant_witness :
  Num.gt 0.99%float CONFIG.WORD_THRESHOLD = true /\
  exists unit vector rest,
    In unit (queriedWords (Examples.words "heck darn") ++ []) /\
    Examples.index unit = Resolved (vector :: rest) /\
    Vector.score vector = Some 0.99%float /\
    Some (Js.lit "darn") = Some unit /\
    Some (Js.lit "darn") = Vector.metadataText vector.
Proof.
  exact (proj1 (analyzeContent_result_invariant
                  Examples.index (Examples.words "heck darn") []
                  (Js.lit "heck darn") inOrder
                  {| TextAnalysisResult.isImproprio := true;
                     TextAnalysisResult.pontuacao := 0.99%float;
                     TextAnalysisResult.flag := Some (Js.lit "darn");
                     TextAnalysisResult.contexto := Some (Js.lit "darn") |}
                  eq_refl)
               eq_refl).
Defined.

(** * Further properties of the code *)

Import MoreNotions.

(** X1. The words of a text, put together, are the text without its white
    space; every word holds at least one code unit and no white space; a text
    with no white space is a single word, and a text of white space only (or
    empty) has no word. *)
Theorem splitIntoWords_tokens (text : jsstring) :
  List.concat (TextProcessor.splitIntoWords text)
  = filter (fun c => negb (Js.isSpace c)) text
  /\ Forall (fun word =>
               word <> [] /\ forall c, In c word -> Js.isSpace c = false)
            (TextProcessor.splitIntoWords text)
  /\ (text <> [] ->
      (forall c, In c text -> Js.isSpace c = false) ->
      TextProcessor.splitIntoWords text = [text])
  /\ ((forall c, In c text -> Js.isSpace c = true) ->
      TextProcessor.splitIntoWords text = []).
Proof.
  split; [apply WordsFacts.words_concat|].
  split; [apply WordsFacts.words_tokens|]. split.
  - intros Hne Hs. unfold TextProcessor.splitIntoWords, Js.splitOnSpaces.
    rewrite WordsFacts.splitAux_one_piece by exact Hs. simpl.
    destruct text; [congruence|reflexivity].
  - intros Hs.
    pose proof (WordsFacts.words_concat text) as C.
    pose proof (WordsFacts.words_tokens text) as T.
    destruct (TextProcessor.splitIntoWords text) as [|w l]; [reflexivity|].
    exfalso. inversion T as [|? ? [Hw _] _]; subst.
    destruct w as [|c w]; [congruence|].
    assert (Hc : In c (filter (fun c => negb (Js.isSpace c)) text))
      by (rewrite <- C; now left).
    apply filter_In in Hc. destruct Hc as (Hin & Hn).
    rewrite (Hs c Hin) in Hn. discriminate.
Qed.

(** X2. [validateRequest] answers 400 for the empty message and for no other;
    a message that is not empty is accepted exactly when it holds at most
    1000 code units and its words, counted with one more for white space at
    its start and one more for white space at its end, are at most 35;
    otherwise it is answered 413. *)
Theorem validateRequest_counts_edge_space (body : RequestBody) :
  (message body = [] <->
   validateRequest body = Some {| status := 400; payload := MensagemObrigatoria |})
  /\ (message body <> [] ->
      (validateRequest body = None <->
       List.length (TextProcessor.splitIntoWords (message body))
       + Nat.b2n (Js.isSpace (List.hd 0%N (message body)))
       + Nat.b2n (Js.isSpace (List.last (message body) 0%N)) <= 35
       /\ Js.length (message body) <= 1000)
      /\ (validateRequest body <> None ->
          validateRequest body
          = Some {| status := 413; payload := LimiteExcedido |})).
Proof.
  split.
  - unfold validateRequest. destruct (message body) as [|c r]; simpl.
    + split; reflexivity.
    + split; [discriminate|].
      destruct (_ || _); discriminate.
  - intros Hne. rewrite <- (CountFacts.pieces_count _ Hne). split.
    + pose proof (ValidationFacts.validateRequest_spec body) as S.
      destruct (validateRequest body) as [r|].
      * split; [discriminate|]. intros [Hw Hl]. exfalso.
        destruct (proj1 S) as [H|[H|H]]; [discriminate|contradiction|lia|lia].
      * split; [|reflexivity]. intros _.
        destruct (Nat.le_gt_cases
                    (List.length (Js.splitOnSpaces (message body))) 35)
          as [Hw|Hw];
          destruct (Nat.le_gt_cases (Js.length (message body)) 1000)
          as [Hl|Hl]; try (split; assumption);
          exfalso; apply (proj2 S); auto.
    + unfold validateRequest. destruct (message body) as [|c r]; [congruence|].
      simpl. destruct (_ || _); [reflexivity|congruence].
Qed.

Section SanitizeShape.

Variable toLowerCase : jsstring -> jsstring.

(** Lower-casing leaves no upper-case ASCII letter. *)
Hypothesis lower_no_upper :
  forall s c, In c (toLowerCase s) -> Js.isUpper c = false.

(** Lower-casing changes nothing in a string of lower-case ASCII letters,
    digits, underscores and white space. *)
Hypothesis lower_fixed :
  forall s, (forall c, In c s -> caseless c = true) -> toLowerCase s = s.

(** X3. What [sanitizeText] returns holds only lower-case ASCII letters,
    digits, underscores and white space, and neither starts nor ends with
    white space. *)
Theorem sanitizeText_shape (x : jsstring) :
  (forall c, In c (TextProcessor.sanitizeText toLowerCase x) ->
             (Js.isLower c || Js.isDigit c || (c =? 95)%N) = true \/
             Js.isSpace c = true)
  /\ (TextProcessor.sanitizeText toLowerCase x <> [] ->
      Js.isSpace (List.hd 0%N (TextProcessor.sanitizeText toLowerCase x)) = false
      /\ Js.isSpace (List.last (TextProcessor.sanitizeText toLowerCase x) 0%N)
         = false).
Proof.
  split.
  - intros c Hc. apply CleanFacts.caseless_word_or_space.
    exact (sanitizeText_caseless toLowerCase lower_no_upper x c Hc).
  - apply CleanFacts.trimmed_ends.
    unfold TextProcessor.sanitizeText. apply JsFacts.trim_idem.
Qed.

(** X4. The strings [sanitizeText] leaves as they are, are the strings of
    lower-case ASCII letters, digits, underscores and white space with no
    white space at either end. *)
Theorem sanitizeText_fixed_points (x : jsstring) :
  TextProcessor.sanitizeText toLowerCase x = x <->
  (forall c, In c x -> caseless c = true) /\ Js.trim x = x.
Proof.
  split.
  - intros E. split.
    + intros c Hc. rewrite <- E in Hc.
      exact (sanitizeText_caseless toLowerCase lower_no_upper x c Hc).
    + rewrite <- E at 1 2. unfold TextProcessor.sanitizeText.
      apply JsFacts.trim_idem.
  - intros [Hc Ht]. unfold TextProcessor.sanitizeText.
    rewrite (lower_fixed x Hc). unfold Js.removeNonWordNonSpace.
    rewrite JsFacts.filter_all; [exact Ht|].
    intros c Hin. exact (SanitizeFacts.caseless_kept c (Hc c Hin)).
Qed.

End SanitizeShape.

(** ["  Black-Belt, OK?  "] becomes ["blackbelt ok"]: the [b] it starts with
    and the [k] it ends with are no white space. *)
Lemma sanitizeText_shape_witness :
  Js.isSpace (List.hd 0%N (TextProcessor.sanitizeText Examples.asciiLower
                             (Js.lit "  Black-Belt, OK?  "))) = false
  /\ Js.isSpace (List.last (TextProcessor.sanitizeText Examples.asciiLower
                              (Js.lit "  Black-Belt, OK?  ")) 0%N) = false.
Proof.
  apply (proj2 (sanitizeText_shape Examples.asciiLower
                  SanitizeFacts.asciiLower_no_upper
                  (Js.lit "  Black-Belt, OK?  "))).
  discriminate.
Defined.

(** ["black belt"] is left as it is. *)
Lemma sanitizeText_fixed_points_witness :
  TextProcessor.sanitizeText Examples.asciiLower (Js.lit "black belt")
  = Js.lit "black belt".
Proof.
  apply (proj2 (sanitizeText_fixed_points Examples.asciiLower
                  SanitizeFacts.asciiLower_no_upper
                  SanitizeFacts.asciiLower_fixed (Js.lit "black belt"))).
  split; [|reflexivity].
  intros c Hc. simpl in Hc.
  repeat (destruct Hc as [<-|Hc]; [reflexivity|]). destruct Hc.
Defined.

(** X5. [sanitizeText] returns the empty string exactly when the lower-cased
    text holds no letter, digit or underscore of ASCII; a message that passes
    the validation and sanitizes to the empty string is answered 200, not
    flagged, score 0, and no query is sent. *)
Theorem message_without_word_is_clean
  (toLowerCase : jsstring -> jsstring) (splitter : jsstring -> list jsstring)
  (body : RequestBody) (index : Index) (sched : Schedule) :
  (TextProcessor.sanitizeText toLowerCase (message body) = [] <->
   forall c, In c (toLowerCase (message body)) -> Js.isWordChar c = false)
  /\ (validateRequest body = None ->
      TextProcessor.sanitizeText toLowerCase (message body) = [] ->
      postRoot toLowerCase splitter (jsonRequest body index) sched
      = ([], {| status := 200; payload := Analysis clean |})).
Proof.
  split; [apply CleanFacts.sanitizeText_nil_iff|].
  intros V E. unfold postRoot, handleDetection, jsonRequest. simpl.
  rewrite V. unfold TextProcessor.splitText. rewrite E. reflexivity.
Qed.

(** ["?! ..."] passes the validation and has nothing to analyze. *)
Lemma message_without_word_is_clean_witness :
  postRoot Examples.asciiLower Examples.oneChunk
    (jsonRequest {| message := Js.lit "?! ..." |} Examples.index) inOrder
  = ([], {| status := 200; payload := Analysis clean |}).
Proof.
  apply (proj2 (message_without_word_is_clean Examples.asciiLower
                  Examples.oneChunk
                  {| message := Js.lit "?! ..." |} Examples.index inOrder)).
  - reflexivity.
  - reflexivity.
Defined.

(** X6. [findHighestScore] returns [null] exactly when no score of the map
    is greater than -1 (an empty map, or scores that are all [NaN] or at most
    -1).  Otherwise it returns an entry of the map with a score above -1 that
    no entry of the map exceeds and that no entry before it, in iteration
    order, equals or exceeds. *)
Theorem findHighestScore_greatest (m : FlaggedMap) :
  (findHighestScore m = None <->
   forall x, In x m -> Num.gt (FlaggedContent.score (snd x)) (-1)%float = false)
  /\ (forall h,
         findHighestScore m = Some h ->
         exists before e after,
           m = before ++ e :: after /\
           h = {| FlaggedResult.flag := fst e; FlaggedResult.details := snd e |} /\
           Num.gt (FlaggedContent.score (snd e)) (-1)%float = true /\
           (forall x, In x m ->
                      Num.gt (FlaggedContent.score (snd x))
                             (FlaggedContent.score (snd e)) = false) /\
           (forall x, In x before ->
                      Num.le (FlaggedContent.score (snd e))
                             (FlaggedContent.score (snd x)) = false)).
Proof.
  rewrite findHighestScore_fold.
  destruct (ScanFacts.scan_any m None (-1)%float)
    as [(E & Hno)|(before & e & after & Em & E & Ge & Hb & Haft)];
    rewrite E; simpl.
  - split; [split; [intros _; exact Hno|reflexivity]|discriminate].
  - split.
    + split; [discriminate|]. intros Hno. exfalso.
      assert (Hin : In e m) by (rewrite Em; apply in_or_app; right; now left).
      unfold scoreOf in Ge. rewrite (Hno e Hin) in Ge. discriminate.
    + intros h [= <-]. exists before, e, after.
      split; [exact Em|]. split; [reflexivity|]. split; [exact Ge|]. split.
      * intros x Hx. rewrite Em in Hx. apply in_app_or in Hx.
        destruct Hx as [Hx|[<-|Hx]].
        -- exact (proj1 (Hb x Hx)).
        -- apply NumFacts.gt_irrefl.
        -- exact (Haft x Hx).
      * intros x Hx. exact (proj2 (Hb x Hx)).
Qed.

(** X7. A request that [analyzeContent] answers is not flagged exactly when
    none of the queries it sent writes: every one of them resolved with no
    vector, or with a first vector that has no score or a score not above the
    threshold of its kind, or, for a word, with a label allowed in the
    context. *)
Theorem not_flagged_iff_no_lookup_writes
  (index : Index) (words semantics : list jsstring)
  (originalContext : jsstring) (sched : Schedule) (r : TextAnalysisResult.t) :
  result (analyzeContent index words semantics originalContext sched) = inr r ->
  (TextAnalysisResult.isImproprio r = false <->
   forall q,
     In q (queries (analyzeContent index words semantics originalContext sched)) ->
     records index originalContext q = None).
Proof. apply RunFacts.not_flagged_iff. Qed.

(** ["a shirt"] : no query writes, and the answer is not flagged. *)
Lemma not_flagged_iff_no_lookup_writes_witness :
  TextAnalysisResult.isImproprio clean = false <->
  forall q,
    In q (queries (analyzeContent Examples.index (Examples.words "a shirt") []
                     (Js.lit "a shirt") inOrder)) ->
    records Examples.index (Js.lit "a shirt") q = None.
Proof.
  exact (not_flagged_iff_no_lookup_writes Examples.index
           (Examples.words "a shirt") [] (Js.lit "a shirt") inOrder clean
           eq_refl).
Defined.

(** X8. When one query writes a candidate, and every query that writes,
    writes that candidate under that label (one unit above its threshold,
    possibly several times in the message), the answer is flagged with that
    label, that score and that unit as context, whatever the order in which
    the lookups settle. *)
Theorem single_candidate_is_reported
  (index : Index) (words semantics : list jsstring)
  (originalContext : jsstring) (sched : Schedule) (r : TextAnalysisResult.t)
  (label : Key) (c : FlaggedContent.t) :
  result (analyzeContent index words semantics originalContext sched) = inr r ->
  (exists q,
      In q (queries (analyzeContent index words semantics originalContext sched))
      /\ records index originalContext q = Some (label, c)) ->
  (forall q,
      In q (queries (analyzeContent index words semantics originalContext sched)) ->
      records index originalContext q = None \/
      records index originalContext q = Some (label, c)) ->
  r = {| TextAnalysisResult.isImproprio := true;
         TextAnalysisResult.pontuacao := FlaggedContent.score c;
         TextAnalysisResult.flag := label;
         TextAnalysisResult.contexto := Some (FlaggedContent.context c) |}.
Proof.
  intros Hr (q0 & Hq0 & R0) Hall.
  destruct (RunFacts.analyzeContent_returns _ _ _ _ _ _ Hr) as (m & Hm & ->).
  pose proof (RunFacts.returned_queries_settled _ _ _ _ _ _ Hm) as P.
  pose proof (collectFlagged_Sound _ _ _ _ _ _ Hm) as S.
  pose proof (collectFlagged_history _ _ _ _ _ _ Hm) as H.
  assert (E : m = [(label, c)]).
  { rewrite H. unfold JsMap.empty.
    destruct (RunFacts.writes_single index originalContext label c
                (settledLookups words semantics sched)
                (fun q Hq => Hall q (Permutation_in q (Permutation_sym P) Hq))
                [] (or_introl eq_refl)) as [E|E]; [exfalso|exact E].
    apply RunFacts.writes_nil_iff in E. destruct E as [_ N].
    rewrite (N q0 (Permutation_in q0 P Hq0)) in R0. discriminate. }
  clear H. subst m.
  assert (Hne : [(label, c)] <> []) by discriminate.
  destruct (findHighestScore_Sound index _ _ S Hne)
    as (before & e & after & Eq & F & _).
  assert (e = (label, c)).
  { destruct before as [|b before]; simpl in Eq.
    - now injection Eq as <- _.
    - injection Eq as _ Eq. destruct before; discriminate. }
  subst e. unfold verdict. rewrite F. reflexivity.
Qed.

(** ["darn"] twice in a message: both lookups write the same candidate. *)
Lemma single_candidate_is_reported_witness :
  result (analyzeContent Examples.index (Examples.words "darn it darn") []
            (Js.lit "darn it darn") inOrder)
  = inr {| TextAnalysisResult.isImproprio := true;
           TextAnalysisResult.pontuacao := 0.99%float;
           TextAnalysisResult.flag := Some (Js.lit "darn");
           TextAnalysisResult.contexto := Some (Js.lit "darn") |}
  /\ {| TextAnalysisResult.isImproprio := true;
        TextAnalysisResult.pontuacao := 0.99%float;
        TextAnalysisResult.flag := Some (Js.lit "darn");
        TextAnalysisResult.contexto := Some (Js.lit "darn") |}
     = {| TextAnalysisResult.isImproprio := true;
          TextAnalysisResult.pontuacao :=
            FlaggedContent.score (candidate (Js.lit "darn") 0.99);
          TextAnalysisResult.flag := Some (Js.lit "darn");
          TextAnalysisResult.contexto :=
            Some (FlaggedContent.context (candidate (Js.lit "darn") 0.99)) |}.
Proof.
  split; [reflexivity|].
  apply (single_candidate_is_reported Examples.index
           (Examples.words "darn it darn") [] (Js.lit "darn it darn") inOrder).
  - reflexivity.
  - exists (WordLookup (Js.lit "darn")). split; [now left|reflexivity].
  - intros q Hq. simpl in Hq.
    destruct Hq as [<-|[<-|[<-|[]]]];
      [right; reflexivity|left; reflexivity|right; reflexivity].
Defined.

(** X9. The order in which the lookups settle changes neither the queries
    [analyzeContent] sends, nor whether it throws, nor whether its answer is
    flagged; the score and the context it reports can change with it. *)
Theorem flag_independent_of_settle_order
  (index : Index) (words semantics : list jsstring)
  (originalContext : jsstring) (sched sched' : Schedule) :
  queries (analyzeContent index words semantics originalContext sched)
  = queries (analyzeContent index words semantics originalContext sched')
  /\ ((exists err,
          result (analyzeContent index words semantics originalContext sched)
          = inl err) <->
      (exists err,
          result (analyzeContent index words semantics originalContext sched')
          = inl err))
  /\ (forall r r',
         result (analyzeContent index words semantics originalContext sched)
         = inr r ->
         result (analyzeContent index words semantics originalContext sched')
         = inr r' ->
         TextAnalysisResult.isImproprio r = TextAnalysisResult.isImproprio r')
  /\ (exists index0 words0 context0 sched0 sched1 r0 r1,
         result (analyzeContent index0 words0 [] context0 sched0) = inr r0 /\
         result (analyzeContent index0 words0 [] context0 sched1) = inr r1 /\
         TextAnalysisResult.pontuacao r0 <> TextAnalysisResult.pontuacao r1 /\
         TextAnalysisResult.contexto r0 <> TextAnalysisResult.contexto r1).
Proof.
  assert (Q : queries (analyzeContent index words semantics originalContext sched)
              = queries (analyzeContent index words semantics originalContext
                           sched')).
  { rewrite !RunFacts.analyzeContent_queries. f_equal.
    pose proof (RunFacts.wordAnalysis_throws_iff index words originalContext
                  sched) as W.
    pose proof (RunFacts.wordAnalysis_throws_iff index words originalContext
                  sched') as W'.
    destruct (wordAnalysis index words originalContext sched) as [e|m];
      destruct (wordAnalysis index words originalContext sched') as [e'|m'];
      try reflexivity; exfalso.
    - destruct (proj2 W' (proj1 W (ex_intro _ e eq_refl))). discriminate.
    - destruct (proj2 W (proj1 W' (ex_intro _ e' eq_refl))). discriminate. }
  split; [exact Q|]. split; [|split].
  - now rewrite !RunFacts.analyzeContent_throws_iff.
  - intros r r' Hr Hr'.
    pose proof (RunFacts.not_flagged_iff _ _ _ _ _ _ Hr) as F.
    pose proof (RunFacts.not_flagged_iff _ _ _ _ _ _ Hr') as F'.
    rewrite Q in F.
    destruct (TextAnalysisResult.isImproprio r),
      (TextAnalysisResult.isImproprio r'); try reflexivity.
    + exact (proj2 F (proj1 F' eq_refl)).
    + symmetry. exact (proj2 F' (proj1 F eq_refl)).
  - exists Examples.index, (Examples.words "darn dang"), (Js.lit "darn dang"),
      inOrder, {| wordChoices := [1]; chunkChoices := [] |}.
    eexists. eexists.
    split; [reflexivity|]. split; [reflexivity|].
    split; discriminate.
Qed.

(** X10. The map [analyzeContent] builds holds at most one entry per label,
    and no more entries than queries were sent. *)
Theorem flaggedContent_one_entry_per_label
  (index : Index) (words semantics : list jsstring)
  (originalContext : jsstring) (sched : Schedule) (m : FlaggedMap) :
  result (collectFlagged index words semantics originalContext sched) = inr m ->
  NoDup (JsMap.keys m)
  /\ List.length m
     <= List.length
          (queries (analyzeContent index words semantics originalContext sched)).
Proof.
  intros Hm.
  rewrite (Permutation_length (RunFacts.returned_queries_settled _ _ _ _ _ _ Hm)).
  rewrite (collectFlagged_history _ _ _ _ _ _ Hm).
  apply (RunFacts.writes_keys index originalContext
           (settledLookups words semantics sched) JsMap.empty).
  constructor.
Qed.

(** ["darn"] and ["dang"] both come back under the label [darn]: two
    queries, one entry. *)
Lemma flaggedContent_one_entry_per_label_witness :
  NoDup (JsMap.keys [ (Some (Js.lit "darn"), candidate (Js.lit "dang") 0.98) ])
  /\ List.length [ (Some (Js.lit "darn"), candidate (Js.lit "dang") 0.98) ]
     <= List.length
          (queries (analyzeContent Examples.index (Examples.words "darn dang")
                      [] (Js.lit "darn dang") inOrder)).
Proof.
  exact (flaggedContent_one_entry_per_label Examples.index
           (Examples.words "darn dang") [] (Js.lit "darn dang") inOrder
           [ (Some (Js.lit "darn"), candidate (Js.lit "dang") 0.98) ] eq_refl).
Defined.

(** X11. With the table of the source, a label is allowed in a context
    exactly when it is [black] and the message contains ["black belt"],
    ["black coffee"] or ["black friday"]; no other label, and not
    [undefined], is ever exempt. *)
Theorem isAllowedInContext_black_only (label : Key) (context : jsstring) :
  TextProcessor.isAllowedInContext label context = true <->
  label = Some (Js.lit "black") /\
  (occursIn (Js.lit "black belt") context \/
   occursIn (Js.lit "black coffee") context \/
   occursIn (Js.lit "black friday") context).
Proof.
  rewrite isAllowedInContext_spec. split.
  - intros (l & a & Hget & Hin & Hocc).
    destruct label as [w|]; [|discriminate]. simpl in Hget.
    destruct (Js.eqb w (Js.lit "black")) eqn:E; [|discriminate].
    apply JsFacts.eqb_eq in E. subst w. injection Hget as <-.
    split; [reflexivity|].
    destruct Hin as [<-|[<-|[<-|[]]]]; tauto.
  - intros [-> H].
    exists [Js.lit "black belt"; Js.lit "black coffee"; Js.lit "black friday"].
    destruct H as [H|[H|H]]; eexists; (split; [reflexivity|]);
      (split; [|exact H]); simpl; tauto.
Qed.

(** X12. The route answers every request with one of the statuses 200, 400,
    406, 413 and 500.  It answers 406 exactly when the content type is not
    [application/json], and 200, with the analysis as payload, exactly when
    the content type is [application/json], the body parses, the message
    passes the validation and none of the queries sent is rejected.  Queries
    are sent only for a request that is answered 200 or 500. *)
Theorem postRoot_status
  (toLowerCase : jsstring -> jsstring) (splitter : jsstring -> list jsstring)
  (c : HonoContext) (sched : Schedule) :
  In (status (snd (postRoot toLowerCase splitter c sched)))
     [200; 400; 406; 413; 500]
  /\ (status (snd (postRoot toLowerCase splitter c sched)) = 406 <->
      contentType c <> Some (Js.lit "application/json"))
  /\ (status (snd (postRoot toLowerCase splitter c sched)) = 200 <->
      contentType c = Some (Js.lit "application/json") /\
      exists body,
        json c = inr body /\
        validateRequest body = None /\
        forall q err,
          In q (fst (postRoot toLowerCase splitter c sched)) ->
          vectorClient c (lookupText q) <> Rejected err)
  /\ (status (snd (postRoot toLowerCase splitter c sched)) = 200 <->
      exists r,
        payload (snd (postRoot toLowerCase splitter c sched)) = Analysis r)
  /\ (fst (postRoot toLowerCase splitter c sched) <> [] ->
      status (snd (postRoot toLowerCase splitter c sched)) = 200 \/
      status (snd (postRoot toLowerCase splitter c sched)) = 500).
Proof.
  destruct (RunFacts.postRoot_cases toLowerCase splitter c sched)
    as [(Ct & ->)
       |(Ct & [(err & details & J & ->)
              |(body & J & [(V & ->)
                           |[(V & ->)
                            |(V & words & semantics & sanitized & _ & _ & _
                              & Q & [(err & details & R & S)
                                    |(r & R & S)])]])])];
    cbn [fst snd status payload];
    try rewrite S; cbn [status payload].
  - split; [simpl; tauto|]. split; [tauto|].
    split; [split; [discriminate|intros [H _]; contradiction]|].
    split; [split; [discriminate|intros (r & H); discriminate]|].
    intros H. congruence.
  - split; [simpl; tauto|]. split; [split; [discriminate|contradiction]|].
    split; [split; [discriminate|intros (_ & b & H & _); congruence]|].
    split; [split; [discriminate|intros (r & H); discriminate]|].
    intros H. congruence.
  - split; [simpl; tauto|]. split; [split; [discriminate|contradiction]|].
    split; [split; [discriminate|intros (_ & b & H & V' & _); congruence]|].
    split; [split; [discriminate|intros (r & H); discriminate]|].
    intros H. congruence.
  - split; [simpl; tauto|]. split; [split; [discriminate|contradiction]|].
    split; [split; [discriminate|intros (_ & b & H & V' & _); congruence]|].
    split; [split; [discriminate|intros (r & H); discriminate]|].
    intros H. congruence.
  - split; [simpl; tauto|]. split; [split; [discriminate|contradiction]|].
    split; [|split; [split; [discriminate|intros (r & H); discriminate]|tauto]].
    split; [discriminate|]. intros (_ & b & _ & _ & Hno). exfalso.
    rewrite Q in Hno.
    destruct (proj2 (RunFacts.analyzeContent_returns_iff _ _ _ _ _)
                (fun q e Hq => Hno q e Hq)) as (r & Hr).
    congruence.
  - split; [simpl; tauto|]. split; [split; [discriminate|contradiction]|].
    split; [|split; [split; [eauto|reflexivity]|tauto]].
    split; [|reflexivity]. intros _. split; [exact Ct|].
    exists body. split; [exact J|]. split; [exact V|].
    intros q err Hq. rewrite Q in Hq.
    exact (proj1 (RunFacts.analyzeContent_returns_iff _ _ _ _ _)
             (ex_intro _ r R) q err Hq).
Qed.

Section WordQueries.

Variable toLowerCase : jsstring -> jsstring.

(** Lower-casing leaves no upper-case ASCII letter. *)
Hypothesis lower_no_upper :
  forall s c, In c (toLowerCase s) -> Js.isUpper c = false.

(** X13. Every word the route looks up in the index is a string, not empty,
    of lower-case ASCII letters, digits and underscores, and is not in the
    general allow list. *)
Theorem word_queries_are_tokens
  (splitter : jsstring -> list jsstring) (c : HonoContext) (sched : Schedule)
  (word : jsstring) :
  In (WordLookup word) (fst (postRoot toLowerCase splitter c sched)) ->
  word <> []
  /\ (forall u, In u word ->
                (Js.isLower u || Js.isDigit u || (u =? 95)%N) = true)
  /\ ALLOWED_WORDS.GENERAL_has word = false.
Proof.
  destruct (RunFacts.postRoot_cases toLowerCase splitter c sched)
    as [(Ct & ->)
       |(Ct & [(err & details & J & ->)
              |(body & J & [(V & ->)
                           |[(V & ->)
                            |(V & words & semantics & sanitized & Es & Ew & _
                              & Q & _)]])])];
    try (intros []).
  rewrite Q, RunFacts.analyzeContent_queries. intros Hin.
  assert (Hw : In word (queriedWords words)).
  { apply in_app_or in Hin. destruct Hin as [Hin|Hin].
    - apply in_map_iff in Hin. destruct Hin as (u & [= ->] & Hu). exact Hu.
    - destruct (wordAnalysis _ _ _ _); [destruct Hin|].
      apply in_map_iff in Hin. destruct Hin as (u & E & _). discriminate. }
  apply GENERAL_has_queried in Hw. destruct Hw as (Hw & Hg). subst words.
  pose proof (WordsFacts.words_tokens sanitized) as T.
  rewrite Forall_forall in T. destruct (T word Hw) as (Hne & Hns).
  split; [exact Hne|]. split; [|exact Hg].
  intros u Hu.
  pose proof (WordsFacts.words_In sanitized word u Hw Hu) as Hs. subst sanitized.
  destruct (CleanFacts.caseless_word_or_space u
              (sanitizeText_caseless toLowerCase lower_no_upper _ u Hs))
    as [H|H]; [exact H|].
  rewrite (Hns u Hu) in H. discriminate.
Qed.

End WordQueries.

(** The words of ["Darn, Heck!"] are looked up as ["darn"] and ["heck"]. *)
Lemma word_queries_are_tokens_witness :
  fst (postRoot Examples.asciiLower Examples.oneChunk
         (jsonRequest {| message := Js.lit "Darn, Heck!" |} Examples.index)
         inOrder)
  = [WordLookup (Js.lit "darn"); WordLookup (Js.lit "heck");
     ChunkLookup (Js.lit "darn heck")]
  /\ (Js.lit "heck" <> []
      /\ (forall u, In u (Js.lit "heck") ->
                    (Js.isLower u || Js.isDigit u || (u =? 95)%N) = true)
      /\ ALLOWED_WORDS.GENERAL_has (Js.lit "heck") = false).
Proof.
  split; [reflexivity|].
  apply (word_queries_are_tokens Examples.asciiLower
           SanitizeFacts.asciiLower_no_upper Examples.oneChunk
           (jsonRequest {| message := Js.lit "Darn, Heck!" |} Examples.index)
           inOrder (Js.lit "heck")).
  right. left. reflexivity.
Defined.


(** ** [seed.ts] *)

(** X14. [seed] ends for every file and every index.  The items it gives to
    [index.upsert], batch after batch, are the rows of the file in their
    order, each with its text as data and as metadata and its position in the
    file as id, up to the batch the index refuses; when no batch is refused,
    [seed] returns and every row has been sent exactly once. *)
Theorem seed_sends_rows_in_order (upsert : Seed.Upsert) (data : list Seed.Row) :
  exists run,
    Seed.seed upsert (inr data) = Some run /\
    (exists rest, itemsFrom 0 data = List.concat (Seed.upserts run) ++ rest) /\
    (Seed.outcome run = inr tt -> List.concat (Seed.upserts run) = itemsFrom 0 data) /\
    ((forall batch, In batch (Seed.upserts run) -> upsert batch = None) ->
     Seed.outcome run = inr tt).
Proof.
  destruct (SeedFacts.seedLoop_spec upsert data (S (List.length data)) 0)
    as (run & E & (rest & Hrest & Hdone) & _ & Hacc & Hempty); [lia|lia|].
  exists run. split; [exact E|]. simpl in Hrest.
  split; [eauto|]. split.
  - intros O. rewrite Hrest, (Hdone O). now rewrite app_nil_r.
  - intros Hall. destruct (Seed.upserts run) as [|b l] eqn:U; [now apply Hempty|].
    destruct (exists_last (l := b :: l)) as (before & batch & El);
      [discriminate|].
    destruct (Hacc before batch [] El) as (_ & Hlast).
    specialize (Hlast eq_refl).
    destruct (Seed.outcome run) as [err|[]]; [|reflexivity].
    rewrite Hall in Hlast; [discriminate|].
    rewrite El. apply in_or_app. right. now left.
Qed.

(** X15. Every batch [seed] gives to [index.upsert] holds at least one item
    and at most 30, and every batch but the last holds 30; the index accepted
    every batch but the last, and [seed] throws exactly what the index threw
    on the last one.  Nothing is sent for an empty file, or when reading the
    file failed. *)
Theorem seed_batches (upsert : Seed.Upsert) (data : list Seed.Row) :
  (forall err,
      Seed.seed upsert (inl err) = Some {| Seed.upserts := []; Seed.outcome := inl err |})
  /\ Seed.seed upsert (inr []) = Some {| Seed.upserts := []; Seed.outcome := inr tt |}
  /\ exists run,
       Seed.seed upsert (inr data) = Some run /\
       Forall (fun batch => 1 <= List.length batch <= 30) (Seed.upserts run) /\
       (forall before batch after,
           Seed.upserts run = before ++ batch :: after ->
           after <> [] ->
           List.length batch = 30 /\ upsert batch = None) /\
       (forall err,
           Seed.outcome run = inl err <->
           exists before batch,
             Seed.upserts run = before ++ [batch] /\ upsert batch = Some err).
Proof.
  split; [reflexivity|split; [reflexivity|]].
  destruct (SeedFacts.seedLoop_spec upsert data (S (List.length data)) 0)
    as (run & E & _ & Hsizes & Hacc & Hempty); [lia|lia|].
  exists run. split; [exact E|]. split; [exact Hsizes|]. split.
  - intros before batch after U Hne. split.
    + exact (SeedFacts.seedLoop_full_batches upsert data _ _ _ E
               before batch after U Hne).
    + exact (proj1 (Hacc before batch after U) Hne).
  - intros err. split.
    + intros O. destruct (Seed.upserts run) as [|b l] eqn:U.
      * rewrite (Hempty eq_refl) in O. discriminate.
      * destruct (exists_last (l := b :: l)) as (before & batch & El);
          [discriminate|].
        exists before, batch. split; [exact El|].
        destruct (Hacc before batch [] El) as (_ & Hlast).
        specialize (Hlast eq_refl). now rewrite O in Hlast.
    + intros (before & batch & U & Hu).
      destruct (Hacc before batch [] U) as (_ & Hlast).
      specialize (Hlast eq_refl).
      destruct (Seed.outcome run) as [err'|[]]; congruence.
Qed.

(** Two rows make one batch, with the ids 0 and 1. *)
Example seed_two_rows :
  Seed.seed (fun _ => None)
    (inr [ {| Seed.text := Js.lit "darn" |}; {| Seed.text := Js.lit "heck" |} ])
  = Some {| Seed.upserts :=
              [ [ itemOf 0 {| Seed.text := Js.lit "darn" |};
                  itemOf 1 {| Seed.text := Js.lit "heck" |} ] ];
            Seed.outcome := inr tt |}.
Proof. reflexivity. Qed.
